(** * The runner client of the load-balancing agent

    A shallow embedding of [api/agent/runner_client.go]: the error
    classifier [isTooBusy], the engagement orchestrator [TryExec], the
    outbound body streamer [sendToRunner], the inbound response receiver
    [receiveFromRunner] and the latency recorder [recordFinishStats].

    Collaborators the client only talks to through an interface (the session
    guard, the JSON encoder, the gRPC stream, the request body, the response
    writer, the clock) are modelled by the answers they give; every call the
    client makes on them is recorded in a trace, in program order.  Tracing
    spans and log lines carry no decision and are left out, but for the
    completion log's severity and the two data-loss logs of the streamer;
    the copy of the response headers that only feeds the completion log is
    left out with them. *)

From Stdlib Require Import ZArith List Bool String Ascii Lia Arith.
Import ListNotations.

Local Open Scope list_scope.

Definition bytes : Type := list Byte.byte.

(** ** Errors *)

(** A non-nil Go [error] value.  The package-level sentinels are compared by
    identity in the source ([err == io.EOF]), so each is a constructor of its
    own.  [APIError] is what [models.NewAPIError] builds, [FuncError] what
    [models.NewFuncError] wraps around it (the code is kept), [StatusError]
    is an error carrying a gRPC status, [PlainError] any other error. *)
Inductive error_val : Type :=
| EOF
| ErrShortWrite
| ErrorRunnerClosed
| ErrorPureRunnerNoEOF
| PlainError (msg : string)
| APIError (code : Z) (msg : string)
| FuncError (code : Z) (msg : string)
| StatusError (code : Z) (msg : string).

(** A Go [error]: [None] is [nil]. *)
Definition error : Type := option error_val.

Definition nil_error : error := None.

Definition is_nil (e : error) : bool :=
  match e with None => true | Some _ => false end.

Definition is_EOF (e : error) : bool :=
  match e with Some EOF => true | _ => false end.

(** gRPC status codes ([google.golang.org/grpc/codes]). *)
Module codes.
Definition OK : Z := 0.
Definition Unknown : Z := 2.
Definition Unavailable : Z := 14.
End codes.

(** [google.golang.org/grpc/status]: a [*Status] is modelled by its code,
    [None] being the nil pointer. *)
Module status.

Definition Status : Type := option Z.

(** [status.Convert]: nil for a nil error, the carried status for a status
    error, and a status of code [Unknown] for any other error. *)
Definition Convert (err : error) : Status :=
  match err with
  | None => None
  | Some (StatusError c _) => Some c
  | Some _ => Some codes.Unknown
  end.

(** The [Code] method of a status: [OK] on the nil pointer. *)
Definition Code_of (st : Status) : Z :=
  match st with
  | None => codes.OK
  | Some c => c
  end.

(** [status.Code(err)]. *)
Definition Code (err : error) : Z := Code_of (Convert err).

End status.

Module models.

(** Modelled from the spec: [models.ErrCallTimeoutServerBusy] is declared in
    the package [api/models]; the spec calls it the server-busy sentinel, a
    structured application error carrying the reserved server-busy code,
    which its scenario C gives as 503. *)
Definition ErrCallTimeoutServerBusy : error_val :=
  APIError 503 "Timed out - server too busy".

(** Modelled from the spec: [models.GetAPIErrorCode] is declared in the
    package [api/models]; it resolves the code of a structured application
    error.  For nil and for an error that is not one it resolves no code,
    written 0 here: the spec has nil classify as not busy, so what it
    resolves then is not the server-busy code. *)
Definition GetAPIErrorCode (err : error) : Z :=
  match err with
  | Some (APIError c _) => c
  | Some (FuncError c _) => c
  | _ => 0%Z
  end.

End models.

(** ** The error classifier *)

Definition isTooBusy (err : error) : bool :=
  if (models.GetAPIErrorCode err
      =? models.GetAPIErrorCode (Some models.ErrCallTimeoutServerBusy))%Z
  then true
  else
    match err with
    | Some _ =>
        let st := status.Convert err in
        if (status.Code_of st
            =? models.GetAPIErrorCode (Some models.ErrCallTimeoutServerBusy))%Z
        then true
        else false
    | None => false
    end.

(** The classifier as the specification words it: the code an error
    resolves to is the code of the structured application error when the
    error is one, and its transport status code otherwise; nil resolves to
    no code. *)
Definition api_code (e : error_val) : option Z :=
  match e with
  | APIError c _ => Some c
  | FuncError c _ => Some c
  | _ => None
  end.

Definition resolved_code (err : error) : option Z :=
  match err with
  | None => None
  | Some e =>
      match api_code e with
      | Some c => Some c
      | None => Some (status.Code err)
      end
  end.

Definition busy_code : Z := 503.

Definition resolves_to_busy (err : error) : bool :=
  match resolved_code err with
  | Some c => (c =? busy_code)%Z
  | None => false
  end.

(** ** Protocol messages *)

Record DataFrame : Type := mkDataFrame {
  Data : bytes;
  Eof : bool
}.

Record TryCall : Type := mkTryCall {
  ModelsCallJson : string;
  SlotHashId : string;
  Extensions : list (string * string)
}.

Inductive ClientMsg : Type :=
| ClientMsg_Try (t : TryCall)
| ClientMsg_Data (d : DataFrame).

Record HttpRespMeta : Type := mkHttpRespMeta {
  StatusCode : Z;
  Headers : list (string * string)
}.

Inductive CallResultStart_Meta : Type :=
| CallResultStart_Http (h : HttpRespMeta)
| CallResultStart_Other.

Record CallFinished : Type := mkCallFinished {
  Success : bool;
  ErrorCode : Z;
  ErrorStr : string;
  ErrorUser : bool;
  SchedulerDuration : Z;
  ExecutionDuration : Z;
  CreatedAt : string;
  StartedAt : string;
  CompletedAt : string
}.

Inductive RunnerMsg : Type :=
| RunnerMsg_ResultStart (meta : CallResultStart_Meta)
| RunnerMsg_Data (d : DataFrame)
| RunnerMsg_Finished (f : CallFinished)
| RunnerMsg_Unknown.

(** ** The terminal-signal channel: [make(chan error, 1)] *)

Record chan : Type := mkChan {
  buf : option error;
  closed : bool
}.

Definition make_chan : chan := {| buf := None; closed := false |}.

(** [select { case done <- err: default: }]: the value is stored when the
    single slot is free and dropped otherwise. *)
Definition tryQueueError (err : error) (done : chan) : chan :=
  match buf done with
  | None => {| buf := Some err; closed := closed done |}
  | Some _ => done
  end.

Definition queue_accepts (done : chan) : bool :=
  match buf done with None => true | Some _ => false end.

Definition close (done : chan) : chan :=
  {| buf := buf done; closed := true |}.

(** [<-done], as to the value it yields: the buffered value when there is
    one, the zero value (nil) on a closed empty channel, and no value yet
    ([None]) on an open empty one.  It leaves the channel as it is; the
    receive that empties the slot is [chan_take] below. *)
Definition chan_recv (done : chan) : option error :=
  match buf done with
  | Some e => Some e
  | None => if closed done then Some nil_error else None
  end.

(** [<-done] with its effect: a buffered value is taken out of the slot,
    which is free again afterwards; a closed empty channel yields nil; an
    open empty one makes the receiver wait ([None]). *)
Definition chan_take (done : chan) : option (error * chan) :=
  match buf done with
  | Some e => Some (e, {| buf := None; closed := closed done |})
  | None => if closed done then Some (nil_error, done) else None
  end.

(** The one receive of the orchestrator ([case recvErr := <-recvDone]) set
    in a run of the receiver, which makes the posts [posts] in order and
    then closes the channel.  The two run side by side, so the receive may
    come at any moment: [k] counts the posts made before it.  If the slot
    is empty then, the orchestrator waits, and is handed the next value
    posted, or nil by the close when no post is left. *)
Fixpoint drawn_after (k : nat) (done : chan) (posts : list error) : error :=
  match k, posts with
  | O, _ =>
      match chan_take done with
      | Some (v, _) => v
      | None => hd nil_error posts
      end
  | S k', e :: rest => drawn_after k' (tryQueueError e done) rest
  | S _, [] =>
      match chan_take (close done) with
      | Some (v, _) => v
      | None => nil_error
      end
  end.

(** ** The engagement orchestrator *)

(** [hex.EncodeToString([]byte(s))] *)
Definition hex_digit (n : N) : ascii :=
  if (n <? 10)%N then ascii_of_N (48 + n) else ascii_of_N (87 + n).

Fixpoint hex_EncodeToString (s : string) : string :=
  match s with
  | EmptyString => EmptyString
  | String c rest =>
      let n := N_of_ascii c in
      String (hex_digit (n / 16)) (String (hex_digit (n mod 16))
        (hex_EncodeToString rest))
  end.

(** What the call hands to [TryExec]: the outcome of [json.Marshal] on its
    model, its slot hash and its extensions. *)
Record RunnerCall : Type := mkRunnerCall {
  Model_json : string * error;
  call_SlotHashId : string;
  call_Extensions : list (string * string)
}.

(** Which case of the final [select] fires, and with what value. *)
Inductive select_result : Type :=
| CtxDone (ctxErr : error)
| RecvDone (recvErr : error).

(** The answers of the collaborators during one [TryExec]. *)
Record Engagement : Type := mkEngagement {
  AddSession : bool;
  RequestID : string;
  Engage : error;
  SendTry : error;
  Race : select_result
}.

Inductive action : Type :=
| ActAddSession
| ActDoneSession
| ActMarshal
| ActMetadata (rid : string)
| ActEngage
| ActSend (m : ClientMsg)
| ActGoReceive
| ActGoSend.

Definition TryExec (r : Engagement) (call : RunnerCall)
  : (bool * error) * list action :=
  if negb (AddSession r) then
    ((false, Some ErrorRunnerClosed), [ActAddSession])
  else
    let '(modelJSON, err) := Model_json call in
    match err with
    | Some _ =>
        ((true, err), [ActAddSession; ActMarshal; ActDoneSession])
    | None =>
        let meta :=
          if negb (String.eqb (RequestID r) EmptyString)
          then [ActMetadata (RequestID r)] else [] in
        match Engage r with
        | Some _ =>
            ((false, Engage r),
             [ActAddSession; ActMarshal] ++ meta ++ [ActEngage; ActDoneSession])
        | None =>
            let try :=
              ClientMsg_Try {| ModelsCallJson := modelJSON;
                               SlotHashId := hex_EncodeToString (call_SlotHashId call);
                               Extensions := call_Extensions call |} in
            let sent := [ActAddSession; ActMarshal] ++ meta ++ [ActEngage; ActSend try] in
            match SendTry r with
            | Some _ =>
                let isRetriable := (status.Code (SendTry r) =? codes.Unavailable)%Z in
                ((negb isRetriable, SendTry r), sent ++ [ActDoneSession])
            | None =>
                let launched := sent ++ [ActGoReceive; ActGoSend] in
                match Race r with
                | CtxDone ctxErr =>
                    ((true, ctxErr), launched ++ [ActDoneSession])
                | RecvDone recvErr =>
                    if isTooBusy recvErr then
                      ((false, Some models.ErrCallTimeoutServerBusy),
                       launched ++ [ActDoneSession])
                    else
                      ((true, recvErr), launched ++ [ActDoneSession])
                end
            end
        end
    end.

(** ** The outbound body streamer *)

(** max buffer size for grpc data messages, 10K *)
Definition MaxDataChunk : Z := 10 * 1024.

(** The readable body ([io.Reader]): [Read r n] is one [Read] into a buffer
    of [n] bytes; it answers the bytes it stored there (their number is Go's
    [n]), the error, and the reader afterwards. *)
Class Reader (R : Type) : Type := {
  Read : R -> nat -> (bytes * error) * R
}.

(** The in-memory body of Go's [bytes.Reader]: a read copies as many of the
    remaining bytes as the buffer holds, with a nil error, and a read with
    nothing left answers zero bytes and [io.EOF]. *)
Definition bytesReader_Read (s : bytes) (n : nat) : (bytes * error) * bytes :=
  match s with
  | [] => (([], Some EOF), [])
  | _ :: _ => ((firstn n s, nil_error), skipn n s)
  end.

#[export] Instance bytesReader : Reader bytes :=
  {| Read := bytesReader_Read |}.

(** A body that answers its reads from a script, and end-of-stream once the
    script is used up. *)
Definition scriptReader_Read (s : list (bytes * error)) (n : nat)
  : (bytes * error) * list (bytes * error) :=
  match s with
  | [] => (([], Some EOF), [])
  | r :: rest => (r, rest)
  end.

#[export] Instance scriptReader : Reader (list (bytes * error)) :=
  {| Read := scriptReader_Read |}.

Inductive sevent : Type :=
| EvRead (data : bytes) (err : error)
| EvLogReadError (err : error)
| EvSend (d : DataFrame) (sendErr : error)
| EvLogSendError (sendErr : error).

(** The loop of [sendToRunner] over a write buffer of [bufLen] bytes.
    [sends] holds what the stream answers to the successive [Send] calls
    (nil once it is used up).  The boolean tells whether the function has
    returned within [fuel] iterations. *)
Fixpoint sendLoop {R : Type} `{Reader R} (bufLen : nat) (fuel : nat) (bodyReader : R)
  (sends : list error) : list sevent * bool :=
  match fuel with
  | O => ([], false)
  | S fuel' =>
      let '((data, err), bodyReader') := Read bodyReader bufLen in
      let n := Z.of_nat (List.length data) in
      let logRead :=
        if negb (is_nil err) && negb (is_EOF err)
        then [EvLogReadError err] else [] in
      let isEOF := negb (is_nil err) || (n =? 0)%Z in
      let sendErr := hd nil_error sends in
      let round :=
        [EvRead data err] ++ logRead
          ++ [EvSend {| Data := data; Eof := isEOF |} sendErr] in
      if negb (is_nil sendErr) then
        (round ++ (if negb (is_EOF sendErr) then [EvLogSendError sendErr] else []),
         true)
      else if isEOF then (round, true)
      else
        let '(tr, returned) := sendLoop bufLen fuel' bodyReader' (tl sends) in
        (round ++ tr, returned)
  end.

Definition sendToRunner {R : Type} `{Reader R} (fuel : nat) (bodyReader : R)
  (sends : list error) : list sevent * bool :=
  sendLoop (Z.to_nat MaxDataChunk) fuel bodyReader sends.

Fixpoint reads_of (tr : list sevent) : list (bytes * error) :=
  match tr with
  | [] => []
  | EvRead d e :: tr' => (d, e) :: reads_of tr'
  | _ :: tr' => reads_of tr'
  end.

Fixpoint frames_of (tr : list sevent) : list DataFrame :=
  match tr with
  | [] => []
  | EvSend f _ :: tr' => f :: frames_of tr'
  | _ :: tr' => frames_of tr'
  end.

(** The frame the specification asks for after a read. *)
Definition frame_for_read (rd : bytes * error) : DataFrame :=
  {| Data := fst rd;
     Eof := match snd rd with
            | Some _ => true
            | None => Nat.eqb (List.length (fst rd)) 0
            end |}.

Definition ceil_div (n c : nat) : nat := (n + c - 1) / c.

(** The framing of a body of [n] bytes as the specification words it:
    [ceil (n / c)] non-final frames of exactly [c] bytes each, then one
    end-of-stream frame with the remainder (zero-length when [c] divides
    [n]). *)
Definition claimed_framing (c n : nat) (frames : list DataFrame) : Prop :=
  exists nonfinal final,
    frames = nonfinal ++ [final] /\
    List.length nonfinal = ceil_div n c /\
    Forall (fun f => List.length (Data f) = c /\ Eof f = false) nonfinal /\
    List.length (Data final) = n mod c /\ Eof final = true.

(** The framing the streamer gives an in-memory body: [n / c] full frames,
    one more non-final frame with the remainder when there is one, and
    always a zero-length end-of-stream frame. *)
Definition streamed_framing (c n : nat) (frames : list DataFrame) : Prop :=
  exists full rest,
    frames = full ++ rest ++ [ {| Data := []; Eof := true |} ] /\
    List.length full = n / c /\
    Forall (fun f => List.length (Data f) = c /\ Eof f = false) full /\
    List.length (full ++ rest) = ceil_div n c /\
    match rest with
    | [] => n mod c = 0
    | [f] => List.length (Data f) = n mod c /\ n mod c <> 0 /\ Eof f = false
    | _ => False
    end.

(** ** Latency recording *)

(** The clock the recorder relies on: Go's [time.Time] with its zero value
    and the methods used, and [common.ParseDateTime], which is declared in
    the package [api/common] and taken here as given. *)
Class Clock (Time : Type) : Type := {
  time_zero : Time;
  IsZero : Time -> bool;
  Before : Time -> Time -> bool;
  Sub : Time -> Time -> Z;
  ParseDateTime : string -> Time * error;
  IsZero_time_zero : IsZero time_zero = true
}.

Inductive stat_event : Type :=
| EvTranslateDate (dt : string)
| StatSchedLatency (d : Z)
| StatExecLatency (d : Z)
| AddUserExecutionTime (d : Z).

Section Stats.

Context {Time : Type} `{Clock Time}.

Definition translateDate (dt : string) : Time :=
  if negb (String.eqb dt EmptyString) then
    let '(trx, err) := ParseDateTime dt in
    match err with
    | None => trx
    | Some _ => time_zero
    end
  else time_zero.

(** The calls [recordFinishStats] makes, in order: the timestamps it hands
    to [translateDate], the latencies it records and what it adds to the
    call's execution-time accumulator. *)
Definition recordFinishStats (msg : CallFinished) : list stat_event :=
  let runnerSchedLatency := SchedulerDuration msg in
  let runnerExecLatency := ExecutionDuration msg in
  if negb (runnerSchedLatency =? 0)%Z || negb (runnerExecLatency =? 0)%Z then
    (if negb (runnerSchedLatency =? 0)%Z
     then [StatSchedLatency runnerSchedLatency] else [])
    ++ (if negb (runnerExecLatency =? 0)%Z
        then [StatExecLatency runnerExecLatency;
              AddUserExecutionTime runnerExecLatency] else [])
  else
    let creatTs := translateDate (CreatedAt msg) in
    let startTs := translateDate (StartedAt msg) in
    let complTs := translateDate (CompletedAt msg) in
    [EvTranslateDate (CreatedAt msg); EvTranslateDate (StartedAt msg);
     EvTranslateDate (CompletedAt msg)]
    ++ (if negb (IsZero creatTs) && negb (IsZero startTs) && negb (IsZero complTs)
           && negb (Before startTs creatTs) && negb (Before complTs startTs)
        then
          let runnerSchedLatency := Sub startTs creatTs in
          let runnerExecLatency := Sub complTs startTs in
          [StatSchedLatency runnerSchedLatency;
           StatExecLatency runnerExecLatency;
           AddUserExecutionTime runnerExecLatency]
        else []).

(** A timestamp has parsed when it is not empty, the parser accepted it and
    the time it gave is not the zero time the code keeps for failures. *)
Definition timestamp_parsed (dt : string) : Prop :=
  dt <> EmptyString /\
  exists t, ParseDateTime dt = (t, nil_error) /\ IsZero t = false.

(** The three timestamps of a Finished message parse and do not go back in
    time. *)
Definition timestamps_valid (msg : CallFinished) : Prop :=
  timestamp_parsed (CreatedAt msg) /\
  timestamp_parsed (StartedAt msg) /\
  timestamp_parsed (CompletedAt msg) /\
  Before (translateDate (StartedAt msg)) (translateDate (CreatedAt msg)) = false /\
  Before (translateDate (CompletedAt msg)) (translateDate (StartedAt msg)) = false.

End Stats.

(** ** The inbound response receiver *)

(** The response sink ([http.ResponseWriter]): setting a header, the
    status-code setter, and the body writer, which answers Go's [(n, err)]. *)
Class ResponseWriter (W : Type) : Type := {
  Header_Set : W -> string -> string -> W;
  WriteHeader : W -> Z -> W;
  Write : W -> bytes -> (Z * error) * W
}.

Definition parseError (msg : CallFinished) : error :=
  if Success msg then nil_error
  else
    let eCode := ErrorCode msg in
    let eStr :=
      if String.eqb (ErrorStr msg) EmptyString
      then "Unknown Error From Pure Runner"%string
      else ErrorStr msg in
    if ErrorUser msg then Some (FuncError eCode eStr)
    else Some (APIError eCode eStr).

(** The severity [logCallFinish] logs at: [true] is a warning. *)
Definition logCallFinish_warns (msg : CallFinished) : bool :=
  negb (Success msg) && negb (ErrorUser msg) && negb (ErrorCode msg =? 503)%Z.

(** The places of [receiveFromRunner] that call [tryQueueError]. *)
Inductive queue_site : Type :=
| QRecvError
| QShortWrite
| QFinished
| QDrainError
| QNoEOF.

(** What the receiver does, in order.  [EvQueue] is a call of
    [tryQueueError]; its boolean tells whether the channel took the value
    in the run in which the orchestrator has not received yet (once it has,
    the slot is free again and a later post finds room). *)
Inductive revent : Type :=
| EvRecv
| EvHeaderSet (k v : string)
| EvWriteHeader (code : Z)
| EvWrite (data : bytes) (n : Z) (err : error)
| EvQueue (site : queue_site) (err : error) (accepted : bool)
| EvLogCallFinish (warn : bool) (httpStatus : Z)
| EvStat (s : stat_event)
| EvClose.

Section Receiver.

Context {Time : Type} `{Clock Time} {W : Type} `{ResponseWriter W}.

Record rstate : Type := mkRstate {
  rs_w : W;
  rs_done : chan;
  rs_statusCode : Z;
  rs_isPartialWrite : bool
}.

Definition queue (site : queue_site) (err : error) (done : chan) : revent :=
  EvQueue site err (queue_accepts done).

Fixpoint set_headers (w : W) (hs : list (string * string)) : list revent * W :=
  match hs with
  | [] => ([], w)
  | (k, v) :: hs' =>
      let '(tr, w') := set_headers (Header_Set w k v) hs' in
      (EvHeaderSet k v :: tr, w')
  end.

(** The second loop: there should be an EOF following the last packet.
    [msgs] are the messages the stream still delivers and [final] the error
    its [Recv] answers after them. *)
Fixpoint drainLoop (msgs : list RunnerMsg) (final : error_val) (done : chan)
  : list revent * chan :=
  match msgs with
  | [] =>
      match final with
      | EOF => ([EvRecv], done)
      | _ =>
          ([EvRecv; queue QDrainError (Some final) done],
           tryQueueError (Some final) done)
      end
  | _ :: rest =>
      let '(tr, done') :=
        drainLoop rest final (tryQueueError (Some ErrorPureRunnerNoEOF) done) in
      (EvRecv :: queue QNoEOF (Some ErrorPureRunnerNoEOF) done :: tr, done')
  end.

(** The first loop, [DataLoop], followed on a Finished message by the
    second one. *)
Fixpoint DataLoop (msgs : list RunnerMsg) (final : error_val) (st : rstate)
  : list revent * rstate :=
  match msgs with
  | [] =>
      ([EvRecv; queue QRecvError (Some final) (rs_done st)],
       {| rs_w := rs_w st;
          rs_done := tryQueueError (Some final) (rs_done st);
          rs_statusCode := rs_statusCode st;
          rs_isPartialWrite := rs_isPartialWrite st |})
  | msg :: rest =>
      match msg with
      | RunnerMsg_ResultStart (CallResultStart_Http meta) =>
          let '(trh, w1) := set_headers (rs_w st) (Headers meta) in
          if (StatusCode meta >? 0)%Z then
            let '(tr, st') :=
              DataLoop rest final
                {| rs_w := WriteHeader w1 (StatusCode meta);
                   rs_done := rs_done st;
                   rs_statusCode := StatusCode meta;
                   rs_isPartialWrite := rs_isPartialWrite st |} in
            (EvRecv :: trh ++ EvWriteHeader (StatusCode meta) :: tr, st')
          else
            let '(tr, st') :=
              DataLoop rest final
                {| rs_w := w1;
                   rs_done := rs_done st;
                   rs_statusCode := rs_statusCode st;
                   rs_isPartialWrite := rs_isPartialWrite st |} in
            (EvRecv :: trh ++ tr, st')
      | RunnerMsg_ResultStart CallResultStart_Other =>
          let '(tr, st') := DataLoop rest final st in
          (EvRecv :: tr, st')
      | RunnerMsg_Data body =>
          if negb (rs_isPartialWrite st) then
            let '((n, err), w1) := Write (rs_w st) (Data body) in
            if negb (n =? Z.of_nat (List.length (Data body)))%Z then
              let err' := match err with
                          | None => Some ErrShortWrite
                          | Some _ => err
                          end in
              let '(tr, st') :=
                DataLoop rest final
                  {| rs_w := w1;
                     rs_done := tryQueueError err' (rs_done st);
                     rs_statusCode := rs_statusCode st;
                     rs_isPartialWrite := true |} in
              (EvRecv :: EvWrite (Data body) n err
                 :: queue QShortWrite err' (rs_done st) :: tr, st')
            else
              let '(tr, st') :=
                DataLoop rest final
                  {| rs_w := w1;
                     rs_done := rs_done st;
                     rs_statusCode := rs_statusCode st;
                     rs_isPartialWrite := rs_isPartialWrite st |} in
              (EvRecv :: EvWrite (Data body) n err :: tr, st')
          else
            let '(tr, st') := DataLoop rest final st in
            (EvRecv :: tr, st')
      | RunnerMsg_Finished body =>
          let stats := map EvStat (recordFinishStats body) in
          let posted :=
            if negb (Success body)
            then [queue QFinished (parseError body) (rs_done st)] else [] in
          let done1 :=
            if negb (Success body)
            then tryQueueError (parseError body) (rs_done st) else rs_done st in
          let '(tr, done2) := drainLoop rest final done1 in
          (EvRecv
             :: EvLogCallFinish (logCallFinish_warns body) (rs_statusCode st)
             :: stats ++ posted ++ tr,
           {| rs_w := rs_w st;
              rs_done := done2;
              rs_statusCode := rs_statusCode st;
              rs_isPartialWrite := rs_isPartialWrite st |})
      | RunnerMsg_Unknown =>
          let '(tr, st') := DataLoop rest final st in
          (EvRecv :: tr, st')
      end
  end.

(** [receiveFromRunner]: the two loops, then the deferred [close(done)]. *)
Definition receiveFromRunner (w : W) (msgs : list RunnerMsg) (final : error_val)
  (done : chan) : list revent * (W * chan) :=
  let '(tr, st) :=
    DataLoop msgs final
      {| rs_w := w; rs_done := done; rs_statusCode := 0;
         rs_isPartialWrite := false |} in
  (tr ++ [EvClose], (rs_w st, close (rs_done st))).

End Receiver.

Definition is_WriteHeader (e : revent) : bool :=
  match e with EvWriteHeader _ => true | _ => false end.

Definition is_Write (e : revent) : bool :=
  match e with EvWrite _ _ _ => true | _ => false end.

Definition is_Recv (e : revent) : bool :=
  match e with EvRecv => true | _ => false end.

Definition is_short_write_post (e : revent) : bool :=
  match e with EvQueue QShortWrite _ _ => true | _ => false end.

Definition count (p : revent -> bool) (tr : list revent) : nat :=
  List.length (filter p tr).

(** A Result Start message that carries a positive HTTP status code. *)
Definition has_positive_status (m : RunnerMsg) : bool :=
  match m with
  | RunnerMsg_ResultStart (CallResultStart_Http meta) => (StatusCode meta >? 0)%Z
  | _ => false
  end.

Definition is_Finished (m : RunnerMsg) : bool :=
  match m with RunnerMsg_Finished _ => true | _ => false end.

(** The messages the first loop handles: those before the first Finished. *)
Fixpoint before_Finished (msgs : list RunnerMsg) : list RunnerMsg :=
  match msgs with
  | [] => []
  | m :: rest => if is_Finished m then [] else m :: before_Finished rest
  end.

(** The error posted for a short write: the writer's own error when it gave
    one, [io.ErrShortWrite] otherwise. *)
Definition short_write_error (err : error) : error :=
  match err with
  | None => Some ErrShortWrite
  | Some _ => err
  end.

(** A stretch of trace without a sink write and without a short-write post. *)
Definition quiet (tr : list revent) : Prop :=
  Forall (fun e => is_Write e = false /\ is_short_write_post e = false) tr.

(** The partial-write latch, read off a trace: a short-write post only ever
    follows a short write, and a short write is followed at once by its
    post, which the channel takes, and then by a quiet rest. *)
Fixpoint latched (tr : list revent) : Prop :=
  match tr with
  | [] => True
  | EvWrite data n err :: tr' =>
      if (n =? Z.of_nat (List.length data))%Z then latched tr'
      else exists tr'',
          tr' = EvQueue QShortWrite (short_write_error err) true :: tr'' /\
          quiet tr''
  | EvQueue QShortWrite _ _ :: _ => False
  | _ :: tr' => latched tr'
  end.

(** ** Concrete collaborators for the examples *)

(** A sink that takes [sink_room] more bytes of body and then writes short,
    without an error of its own; it keeps what it was given. *)
Record memSink : Type := mkMemSink {
  sink_room : nat;
  sink_body : bytes;
  sink_status : list Z;
  sink_headers : list (string * string)
}.

Definition memSink_Write (s : memSink) (data : bytes) : (Z * error) * memSink :=
  let n := Nat.min (sink_room s) (List.length data) in
  ((Z.of_nat n, nil_error),
   {| sink_room := sink_room s - n;
      sink_body := sink_body s ++ firstn n data;
      sink_status := sink_status s;
      sink_headers := sink_headers s |}).

#[export] Instance memSink_ResponseWriter : ResponseWriter memSink :=
  {| Header_Set := fun s k v =>
       {| sink_room := sink_room s; sink_body := sink_body s;
          sink_status := sink_status s;
          sink_headers := sink_headers s ++ [(k, v)] |};
     WriteHeader := fun s c =>
       {| sink_room := sink_room s; sink_body := sink_body s;
          sink_status := sink_status s ++ [c];
          sink_headers := sink_headers s |};
     Write := memSink_Write |}.

Definition empty_sink (room : nat) : memSink :=
  {| sink_room := room; sink_body := []; sink_status := []; sink_headers := [] |}.

(** A clock whose timestamps are decimal counts of nanoseconds since the
    zero time. *)
Fixpoint parse_digits (s : string) (acc : Z) : option Z :=
  match s with
  | EmptyString => Some acc
  | String c rest =>
      let n := nat_of_ascii c in
      if (48 <=? n)%nat && (n <=? 57)%nat
      then parse_digits rest (10 * acc + Z.of_nat (n - 48))%Z
      else None
  end.

Definition decimal_ParseDateTime (s : string) : Z * error :=
  match parse_digits s 0%Z with
  | Some t => (t, nil_error)
  | None => (0%Z, Some (PlainError "cannot parse"))
  end.

#[export] Instance decimalClock : Clock Z :=
  {| time_zero := 0%Z;
     IsZero := fun t => (t =? 0)%Z;
     Before := fun t u => (t <? u)%Z;
     Sub := fun t u => (t - u)%Z;
     ParseDateTime := decimal_ParseDateTime;
     IsZero_time_zero := eq_refl |}.

Definition sample_call : RunnerCall :=
  {| Model_json := ("{}"%string, nil_error);
     call_SlotHashId := "slot"%string;
     call_Extensions := [] |}.

(** A connection that is shutting down: the session guard refuses. *)
Definition closing_engagement : Engagement :=
  {| AddSession := false; RequestID := EmptyString; Engage := nil_error;
     SendTry := nil_error; Race := RecvDone nil_error |}.

(** An exchange whose placement message fails to send with [e]. *)
Definition send_failure (e : error_val) : Engagement :=
  {| AddSession := true; RequestID := "rid"%string; Engage := nil_error;
     SendTry := Some e; Race := RecvDone nil_error |}.

(** An exchange that gets [v] from the terminal-signal channel. *)
Definition exchange_ending_with (v : error) : Engagement :=
  {| AddSession := true; RequestID := EmptyString; Engage := nil_error;
     SendTry := nil_error; Race := RecvDone v |}.

Definition http_start (code : Z) : RunnerMsg :=
  RunnerMsg_ResultStart
    (CallResultStart_Http {| StatusCode := code; Headers := [("X", "1")]%string |}).

Definition data_frame (d : bytes) : RunnerMsg :=
  RunnerMsg_Data {| Data := d; Eof := false |}.

Definition finished (sched exec : Z) (created started completed : string)
  : CallFinished :=
  {| Success := true; ErrorCode := 0; ErrorStr := EmptyString; ErrorUser := false;
     SchedulerDuration := sched; ExecutionDuration := exec;
     CreatedAt := created; StartedAt := started; CompletedAt := completed |}.

(** A stream with two Result Start messages before the Finished one. *)
Definition two_result_starts : list RunnerMsg :=
  [http_start 200; http_start 200;
   RunnerMsg_Finished (finished 1 5 EmptyString EmptyString EmptyString)].

(** A stream with two data frames of two bytes before the Finished message. *)
Definition two_data_frames : list RunnerMsg :=
  [data_frame [Byte.x61; Byte.x62]; data_frame [Byte.x63; Byte.x64];
   RunnerMsg_Finished (finished 1 5 EmptyString EmptyString EmptyString)].

(** ** Reading traces *)

Definition is_AddSession (a : action) : bool :=
  match a with ActAddSession => true | _ => false end.

Definition is_DoneSession (a : action) : bool :=
  match a with ActDoneSession => true | _ => false end.

Definition is_Send (a : action) : bool :=
  match a with ActSend _ => true | _ => false end.

Definition is_Engage (a : action) : bool :=
  match a with ActEngage => true | _ => false end.

Definition is_Go (a : action) : bool :=
  match a with ActGoReceive | ActGoSend => true | _ => false end.

(** The calls of [tryQueueError] in a receiver trace: the value and whether
    the channel took it. *)
Fixpoint posts_of (tr : list revent) : list (error * bool) :=
  match tr with
  | [] => []
  | EvQueue _ e a :: tr' => (e, a) :: posts_of tr'
  | _ :: tr' => posts_of tr'
  end.

(** The posts of a run in which only the first one finds the slot free
    ([free] tells whether the slot is free to begin with). *)
Fixpoint first_post_only (free : bool) (ps : list (error * bool)) : Prop :=
  match ps with
  | [] => True
  | (_, a) :: ps' => a = free /\ first_post_only false ps'
  end.

(** The buffers handed to the sink's [Write], in order. *)
Fixpoint writes_of (tr : list revent) : list bytes :=
  match tr with
  | [] => []
  | EvWrite d _ _ :: tr' => d :: writes_of tr'
  | _ :: tr' => writes_of tr'
  end.

(** The headers set on the sink, in order. *)
Fixpoint header_sets_of (tr : list revent) : list (string * string) :=
  match tr with
  | [] => []
  | EvHeaderSet k v :: tr' => (k, v) :: header_sets_of tr'
  | _ :: tr' => header_sets_of tr'
  end.

(** The status codes handed to the sink's [WriteHeader], in order. *)
Fixpoint status_codes_of (tr : list revent) : list Z :=
  match tr with
  | [] => []
  | EvWriteHeader c :: tr' => c :: status_codes_of tr'
  | _ :: tr' => status_codes_of tr'
  end.

(** The latency records of a receiver trace, in order. *)
Fixpoint stats_of (tr : list revent) : list stat_event :=
  match tr with
  | [] => []
  | EvStat s :: tr' => s :: stats_of tr'
  | _ :: tr' => stats_of tr'
  end.

(** The completion log records of a receiver trace. *)
Fixpoint finish_logs_of (tr : list revent) : list (bool * Z) :=
  match tr with
  | [] => []
  | EvLogCallFinish warn st :: tr' => (warn, st) :: finish_logs_of tr'
  | _ :: tr' => finish_logs_of tr'
  end.

Definition is_Close (e : revent) : bool :=
  match e with EvClose => true | _ => false end.

(** The payloads of the data frames among some messages. *)
Fixpoint data_payloads (msgs : list RunnerMsg) : list bytes :=
  match msgs with
  | [] => []
  | RunnerMsg_Data d :: rest => Data d :: data_payloads rest
  | _ :: rest => data_payloads rest
  end.

(** The headers of the HTTP Result Start messages among some messages. *)
Fixpoint http_headers (msgs : list RunnerMsg) : list (string * string) :=
  match msgs with
  | [] => []
  | RunnerMsg_ResultStart (CallResultStart_Http meta) :: rest =>
      Headers meta ++ http_headers rest
  | _ :: rest => http_headers rest
  end.

(** The positive status codes of the HTTP Result Start messages. *)
Fixpoint positive_statuses (msgs : list RunnerMsg) : list Z :=
  match msgs with
  | [] => []
  | RunnerMsg_ResultStart (CallResultStart_Http meta) :: rest =>
      if (StatusCode meta >? 0)%Z then StatusCode meta :: positive_statuses rest
      else positive_statuses rest
  | _ :: rest => positive_statuses rest
  end.

(** The first Finished message of a stream and the messages after it. *)
Fixpoint first_Finished (msgs : list RunnerMsg) : option CallFinished :=
  match msgs with
  | [] => None
  | RunnerMsg_Finished f :: _ => Some f
  | _ :: rest => first_Finished rest
  end.

Fixpoint after_Finished (msgs : list RunnerMsg) : list RunnerMsg :=
  match msgs with
  | [] => []
  | RunnerMsg_Finished _ :: rest => rest
  | _ :: rest => after_Finished rest
  end.

(** The frames handed to the stream by the streamer with what [Send]
    answered. *)
Fixpoint sends_of (tr : list sevent) : list (DataFrame * error) :=
  match tr with
  | [] => []
  | EvSend f e :: tr' => (f, e) :: sends_of tr'
  | _ :: tr' => sends_of tr'
  end.

(** A send that lets the loop go on: it succeeded and its frame is not
    final. *)
Definition goes_on (fe : DataFrame * error) : Prop :=
  snd fe = nil_error /\ Eof (fst fe) = false.

(** The errors of the short writes of a receiver trace, as they are
    posted. *)
Fixpoint short_writes_of (tr : list revent) : list error :=
  match tr with
  | [] => []
  | EvWrite d n err :: tr' =>
      if (n =? Z.of_nat (List.length d))%Z then short_writes_of tr'
      else short_write_error err :: short_writes_of tr'
  | _ :: tr' => short_writes_of tr'
  end.

(** What the two loops of the receiver post apart from short writes, read
    off the stream alone: after the Finished message every further message
    costs a missing-EOF error and the closing error is posted unless it is
    [io.EOF]; before it, the closing error is posted whatever it is. *)
Fixpoint drain_posts (msgs : list RunnerMsg) (final : error_val) : list error :=
  match msgs with
  | [] => match final with EOF => [] | _ => [Some final] end
  | _ :: rest => Some ErrorPureRunnerNoEOF :: drain_posts rest final
  end.

Fixpoint stream_posts (msgs : list RunnerMsg) (final : error_val) : list error :=
  match msgs with
  | [] => [Some final]
  | RunnerMsg_Finished f :: rest =>
      (if Success f then [] else [parseError f]) ++ drain_posts rest final
  | _ :: rest => stream_posts rest final
  end.

(** The value the orchestrator draws from the channel the receiver leaves
    behind. *)
Definition terminal_signal (done : chan) : error :=
  match buf done with
  | Some e => e
  | None => nil_error
  end.

(** A Finished message that reports a failure with the given code. *)
Definition failed (code : Z) (user : bool) : CallFinished :=
  {| Success := false; ErrorCode := code; ErrorStr := "worker failed";
     ErrorUser := user; SchedulerDuration := 0; ExecutionDuration := 0;
     CreatedAt := EmptyString; StartedAt := EmptyString;
     CompletedAt := EmptyString |}.

(** The parts of what [recordFinishStats] does. *)
Fixpoint accumulated (l : list stat_event) : list Z :=
  match l with
  | [] => []
  | AddUserExecutionTime d :: l' => d :: accumulated l'
  | _ :: l' => accumulated l'
  end.

Fixpoint exec_latencies (l : list stat_event) : list Z :=
  match l with
  | [] => []
  | StatExecLatency d :: l' => d :: exec_latencies l'
  | _ :: l' => exec_latencies l'
  end.

Fixpoint sched_latencies (l : list stat_event) : list Z :=
  match l with
  | [] => []
  | StatSchedLatency d :: l' => d :: sched_latencies l'
  | _ :: l' => sched_latencies l'
  end.

Fixpoint dates_translated (l : list stat_event) : list string :=
  match l with
  | [] => []
  | EvTranslateDate dt :: l' => dt :: dates_translated l'
  | _ :: l' => dates_translated l'
  end.

(** * Properties *)

(** ** The error classifier *)

Lemma busy_code_is_sentinel_code :
  models.GetAPIErrorCode (Some models.ErrCallTimeoutServerBusy) = busy_code.
Proof. reflexivity. Qed.

Lemma isTooBusy_nil : isTooBusy nil_error = false.
Proof. reflexivity. Qed.

Lemma isTooBusy_unfold (err : error) :
  isTooBusy err =
  (models.GetAPIErrorCode err =? busy_code)%Z
  || (negb (is_nil err) && (status.Code err =? busy_code)%Z).
Proof.
  unfold isTooBusy. rewrite busy_code_is_sentinel_code.
  destruct (models.GetAPIErrorCode err =? busy_code)%Z; [reflexivity|].
  destruct err as [e|]; simpl; [|reflexivity].
  unfold status.Code. now destruct (_ =? _)%Z.
Qed.

(** C7: the classifier answers true exactly when the code the error
    resolves to, as a structured application error first and as a transport
    status otherwise, is the reserved server-busy code; nil, which resolves
    to no code, and every error resolving to another code classify as
    false. *)
Theorem isTooBusy_iff_resolves_to_busy (err : error) :
  isTooBusy err = resolves_to_busy err /\
  (isTooBusy err = true <-> resolved_code err = Some busy_code) /\
  isTooBusy nil_error = false.
Proof.
  assert (E : isTooBusy err = resolves_to_busy err).
  { rewrite isTooBusy_unfold. unfold resolves_to_busy, resolved_code.
    destruct err as [e|]; [|reflexivity].
    destruct e; simpl; try reflexivity;
      now rewrite orb_false_r. }
  split; [exact E|]. split; [|reflexivity].
  rewrite E. unfold resolves_to_busy.
  destruct (resolved_code err) as [c|].
  - rewrite Z.eqb_eq. split; [intros ->; reflexivity|congruence].
  - split; discriminate.
Qed.

(** ** The engagement orchestrator *)

(** C1, as the specification states it, fails: on a connection whose
    session guard refuses, [TryExec] does not answer committed=true. *)
Lemma TryExec_closed_not_committed :
  AddSession closing_engagement = false /\
  fst (TryExec closing_engagement sample_call) <> (true, Some ErrorRunnerClosed).
Proof. split; [reflexivity|]. vm_compute. discriminate. Qed.

(** C1, amended: when the session guard refuses a new session, [TryExec]
    returns at once with committed=false and [ErrorRunnerClosed]; the guard
    is the only collaborator called, so nothing has been marshalled or
    sent. *)
Theorem TryExec_closed (r : Engagement) (call : RunnerCall) :
  AddSession r = false ->
  TryExec r call = ((false, Some ErrorRunnerClosed), [ActAddSession]).
Proof. intros Hguard. unfold TryExec. now rewrite Hguard. Qed.

Lemma TryExec_closed_witness :
  TryExec closing_engagement sample_call
  = ((false, Some ErrorRunnerClosed), [ActAddSession]).
Proof. apply (TryExec_closed closing_engagement sample_call). reflexivity. Defined.

(** What [TryExec] answers once the guard, the encoder and [Engage] have all
    succeeded. *)
Lemma TryExec_engaged (r : Engagement) (call : RunnerCall) (json : string) :
  AddSession r = true ->
  Model_json call = (json, nil_error) ->
  Engage r = nil_error ->
  fst (TryExec r call) =
  match SendTry r with
  | Some _ =>
      (negb (status.Code (SendTry r) =? codes.Unavailable)%Z, SendTry r)
  | None =>
      match Race r with
      | CtxDone ctxErr => (true, ctxErr)
      | RecvDone recvErr =>
          if isTooBusy recvErr
          then (false, Some models.ErrCallTimeoutServerBusy)
          else (true, recvErr)
      end
  end.
Proof.
  intros Hguard Hjson Hengage. unfold TryExec.
  rewrite Hguard, Hjson, Hengage. cbn [negb nil_error].
  destruct (SendTry r); [reflexivity|].
  destruct (Race r) as [ctxErr|recvErr]; [reflexivity|].
  now destruct (isTooBusy recvErr).
Qed.

(** C3: when sending the placement request fails with [e], [TryExec]
    returns that error, and committed=false exactly when the transport
    status code of [e] is "unavailable"; for every other send error it
    returns committed=true. *)
Theorem TryExec_send_failure (r : Engagement) (call : RunnerCall)
  (json : string) (e : error_val) :
  AddSession r = true ->
  Model_json call = (json, nil_error) ->
  Engage r = nil_error ->
  SendTry r = Some e ->
  snd (fst (TryExec r call)) = Some e /\
  (fst (fst (TryExec r call)) = false <-> status.Code (Some e) = codes.Unavailable) /\
  (status.Code (Some e) <> codes.Unavailable ->
   fst (TryExec r call) = (true, Some e)).
Proof.
  intros Hguard Hjson Hengage Hsend.
  rewrite (TryExec_engaged r call json Hguard Hjson Hengage), Hsend.
  cbn [fst snd]. split; [reflexivity|].
  destruct (Z.eqb_spec (status.Code (Some e)) codes.Unavailable) as [Heq|Hne];
    cbn [negb].
  - split; [tauto|]. intros Hne. now elim Hne.
  - split; [|reflexivity]. split; [discriminate|]. intros Heq. now elim Hne.
Qed.

Lemma TryExec_send_failure_witness :
  fst (TryExec (send_failure (StatusError 14 "transport is closing")) sample_call)
  = (false, Some (StatusError 14 "transport is closing")) /\
  fst (TryExec (send_failure (StatusError 13 "internal")) sample_call)
  = (true, Some (StatusError 13 "internal")).
Proof.
  split.
  - pose proof (TryExec_send_failure
                  (send_failure (StatusError 14 "transport is closing"))
                  sample_call "{}" (StatusError 14 "transport is closing")
                  eq_refl eq_refl eq_refl eq_refl) as [_ [Hiff _]].
    reflexivity.
  - apply (TryExec_send_failure (send_failure (StatusError 13 "internal"))
             sample_call "{}" (StatusError 13 "internal")
             eq_refl eq_refl eq_refl eq_refl).
    vm_compute. discriminate.
Defined.

(** C2: once the placement message is sent, a value [v] coming from the
    terminal-signal channel makes [TryExec] return (false, the server-busy
    sentinel) when the classifier finds [v] busy and (true, [v]) otherwise;
    a nil value gives (true, nil), and nil is what a closed channel yields
    when nothing was posted. *)
Theorem TryExec_terminal_signal (r : Engagement) (call : RunnerCall)
  (json : string) (v : error) :
  AddSession r = true ->
  Model_json call = (json, nil_error) ->
  Engage r = nil_error ->
  SendTry r = nil_error ->
  Race r = RecvDone v ->
  fst (TryExec r call) =
    (if isTooBusy v then (false, Some models.ErrCallTimeoutServerBusy)
     else (true, v)) /\
  (v = nil_error -> fst (TryExec r call) = (true, nil_error)) /\
  (forall done, buf done = None -> chan_recv (close done) = Some nil_error).
Proof.
  intros Hguard Hjson Hengage Hsend Hrace.
  rewrite (TryExec_engaged r call json Hguard Hjson Hengage), Hsend, Hrace.
  unfold nil_error. split; [reflexivity|]. split.
  - intros ->. reflexivity.
  - intros done Hbuf. unfold chan_recv, close. cbn. now rewrite Hbuf.
Qed.

Lemma TryExec_terminal_signal_witness :
  fst (TryExec (exchange_ending_with (Some (APIError 503 "busy"))) sample_call)
  = (false, Some models.ErrCallTimeoutServerBusy) /\
  fst (TryExec (exchange_ending_with nil_error) sample_call) = (true, nil_error).
Proof.
  split.
  - apply (TryExec_terminal_signal
             (exchange_ending_with (Some (APIError 503 "busy"))) sample_call "{}"
             (Some (APIError 503 "busy")) eq_refl eq_refl eq_refl eq_refl eq_refl).
  - apply (TryExec_terminal_signal (exchange_ending_with nil_error) sample_call
             "{}" nil_error eq_refl eq_refl eq_refl eq_refl eq_refl).
    reflexivity.
Defined.

(** ** The outbound body streamer *)

Section Streamer.

Context {R : Type} `{Reader R}.

Lemma isEOF_frame_for_read (data : bytes) (err : error) :
  negb (is_nil err) || (Z.of_nat (List.length data) =? 0)%Z
  = Eof (frame_for_read (data, err)).
Proof.
  destruct err as [e|]; [reflexivity|]. cbn.
  destruct data; reflexivity.
Qed.

Lemma reads_of_app (tr1 tr2 : list sevent) :
  reads_of (tr1 ++ tr2) = reads_of tr1 ++ reads_of tr2.
Proof.
  induction tr1 as [|ev tr1 IH]; [reflexivity|].
  destruct ev; cbn; now rewrite IH.
Qed.

Lemma frames_of_app (tr1 tr2 : list sevent) :
  frames_of (tr1 ++ tr2) = frames_of tr1 ++ frames_of tr2.
Proof.
  induction tr1 as [|ev tr1 IH]; [reflexivity|].
  destruct ev; cbn; now rewrite IH.
Qed.

(** One iteration of the loop, as an equation. *)
Lemma sendLoop_step (bufLen fuel : nat) (r : R) (sends : list error) :
  sendLoop bufLen (S fuel) r sends =
  let data := fst (fst (Read r bufLen)) in
  let err := snd (fst (Read r bufLen)) in
  let logRead :=
    if negb (is_nil err) && negb (is_EOF err) then [EvLogReadError err] else [] in
  let sendErr := hd nil_error sends in
  let round :=
    [EvRead data err] ++ logRead ++ [EvSend (frame_for_read (data, err)) sendErr] in
  if negb (is_nil sendErr) then
    (round ++ (if negb (is_EOF sendErr) then [EvLogSendError sendErr] else []), true)
  else if Eof (frame_for_read (data, err)) then (round, true)
  else (round ++ fst (sendLoop bufLen fuel (snd (Read r bufLen)) (tl sends)),
        snd (sendLoop bufLen fuel (snd (Read r bufLen)) (tl sends))).
Proof.
  cbn [sendLoop]. destruct (Read r bufLen) as [[data err] r']. cbn [fst snd].
  rewrite isEOF_frame_for_read.
  assert (Hf : {| Data := data; Eof := Eof (frame_for_read (data, err)) |}
               = frame_for_read (data, err)) by reflexivity.
  rewrite Hf.
  destruct (negb (is_nil (hd nil_error sends))); [reflexivity|].
  destruct (Eof (frame_for_read (data, err))); [reflexivity|].
  now destruct (sendLoop bufLen fuel r' (tl sends)).
Qed.

Lemma sendLoop_frames_follow_reads (bufLen fuel : nat) :
  forall (r : R) (sends : list error),
    frames_of (fst (sendLoop bufLen fuel r sends))
    = map frame_for_read (reads_of (fst (sendLoop bufLen fuel r sends))).
Proof.
  induction fuel as [|fuel IH]; intros r sends; [reflexivity|].
  rewrite sendLoop_step. cbv zeta.
  set (data := fst (fst (Read r bufLen))).
  set (err := snd (fst (Read r bufLen))).
  destruct (negb (is_nil err) && negb (is_EOF err));
    destruct (negb (is_nil (hd nil_error sends)));
    try destruct (negb (is_EOF (hd nil_error sends)));
    try destruct (Eof (frame_for_read (data, err)));
    cbn [fst app frames_of reads_of map]; rewrite ?IH; reflexivity.
Qed.

(** C8: the frames handed to the stream are, read by read and in order, the
    frames of the reads performed: each carries exactly the bytes read and
    an end-of-stream flag that is true iff the read gave zero bytes or an
    error.  A read that fails with an error other than the ordinary
    end-of-stream is logged and its frame, flagged end-of-stream, is still
    sent before the function returns. *)
Theorem sendToRunner_frame_per_read (fuel : nat) (r : R) (sends : list error) :
  frames_of (fst (sendToRunner fuel r sends))
  = map frame_for_read (reads_of (fst (sendToRunner fuel r sends))) /\
  (forall rd, Eof (frame_for_read rd) = true <->
              (List.length (fst rd) = 0 \/ snd rd <> nil_error)) /\
  (forall data e r',
     Read r (Z.to_nat MaxDataChunk) = ((data, Some e), r') ->
     e <> EOF ->
     exists log,
       sendToRunner (S fuel) r sends
       = (EvRead data (Some e) :: EvLogReadError (Some e)
            :: EvSend {| Data := data; Eof := true |} (hd nil_error sends) :: log,
          true)
       /\ reads_of log = [] /\ frames_of log = []).
Proof.
  split; [apply sendLoop_frames_follow_reads|]. split.
  - intros [data err]. cbn. destruct err as [e|].
    + split; [intros _; right; discriminate|reflexivity].
    + rewrite Nat.eqb_eq. split; [now left|]. intros [Hlen|Hnil]; [exact Hlen|].
      now elim Hnil.
  - intros data e r' Hread Hne. unfold sendToRunner.
    rewrite sendLoop_step, Hread. cbn [fst snd].
    assert (Hlog : negb (is_nil (Some e)) && negb (is_EOF (Some e)) = true).
    { destruct e; try reflexivity. now elim Hne. }
    rewrite Hlog. cbn.
    destruct (hd nil_error sends) as [se|]; cbn.
    + eexists. split; [reflexivity|]. now destruct se.
    + exists []. now split.
Qed.

End Streamer.

Lemma sendToRunner_frame_per_read_witness :
  frames_of (fst (sendToRunner 5
     [([Byte.x61; Byte.x62], nil_error); ([Byte.x63], Some (PlainError "reset"))] []))
  = [ {| Data := [Byte.x61; Byte.x62]; Eof := false |};
      {| Data := [Byte.x63]; Eof := true |} ] /\
  exists log,
    sendToRunner 1 [([Byte.x63], Some (PlainError "reset"))] []
    = (EvRead [Byte.x63] (Some (PlainError "reset"))
         :: EvLogReadError (Some (PlainError "reset"))
         :: EvSend {| Data := [Byte.x63]; Eof := true |} nil_error :: log, true)
    /\ reads_of log = [] /\ frames_of log = [].
Proof.
  split.
  - rewrite (proj1 (sendToRunner_frame_per_read 5
       [([Byte.x61; Byte.x62], nil_error); ([Byte.x63], Some (PlainError "reset"))]
       [])).
    reflexivity.
  - apply (proj2 (proj2 (sendToRunner_frame_per_read 0
       [([Byte.x63], Some (PlainError "reset"))] []))
       [Byte.x63] (PlainError "reset") []).
    + reflexivity.
    + discriminate.
Defined.

(** *** An in-memory body *)

Lemma ceil_div_0 (c : nat) : 0 < c -> ceil_div 0 c = 0.
Proof. intros Hc. unfold ceil_div. apply Nat.div_small. lia. Qed.

Lemma ceil_div_small (n c : nat) : 0 < n < c -> ceil_div n c = 1.
Proof.
  intros Hn. unfold ceil_div.
  replace (n + c - 1) with ((n - 1) + 1 * c) by lia.
  rewrite Nat.div_add by lia. rewrite Nat.div_small; lia.
Qed.

Lemma ceil_div_step (n c : nat) :
  0 < c -> c <= n -> ceil_div n c = S (ceil_div (n - c) c).
Proof.
  intros Hc Hn. unfold ceil_div.
  replace (n + c - 1) with ((n - c + c - 1) + 1 * c) by lia.
  rewrite Nat.div_add by lia. lia.
Qed.

Lemma div_step (n c : nat) : 0 < c -> c <= n -> n / c = S ((n - c) / c).
Proof.
  intros Hc Hn. replace n with ((n - c) + 1 * c) at 1 by lia.
  rewrite Nat.div_add by lia. lia.
Qed.

Lemma mod_step (n c : nat) : 0 < c -> c <= n -> (n - c) mod c = n mod c.
Proof.
  intros Hc Hn. replace n with ((n - c) + 1 * c) at 2 by lia.
  now rewrite Nat.Div0.mod_add.
Qed.

(** The streamer over an in-memory body and a buffer of [c] bytes, every
    send succeeding. *)
Lemma sendLoop_in_memory_body (c : nat) (Hc : 0 < c) :
  forall (fuel : nat) (body : bytes),
    ceil_div (List.length body) c + 1 <= fuel ->
    exists tr,
      sendLoop c fuel body [] = (tr, true) /\
      streamed_framing c (List.length body) (frames_of tr) /\
      List.concat (map Data (frames_of tr)) = body.
Proof.
  induction fuel as [|fuel IH]; intros body Hfuel; [lia|].
  rewrite sendLoop_step. cbv zeta. cbn [hd tl is_nil nil_error negb].
  destruct body as [|b body'].
  - cbn. eexists. split; [reflexivity|]. split; [|reflexivity].
    exists [], []. cbn. rewrite ceil_div_0 by exact Hc.
    rewrite Nat.Div0.div_0_l, Nat.Div0.mod_0_l. now repeat split.
  - set (body := b :: body') in *.
    assert (Hlen : 0 < List.length body) by (cbn; lia).
    change (@Read bytes bytesReader body c)
      with ((firstn c body, @None error_val), skipn c body).
    cbn [fst snd].
    assert (Hne : Eof (frame_for_read (@pair bytes error (firstn c body) None)) = false).
    { cbn. apply Nat.eqb_neq. rewrite length_firstn. lia. }
    rewrite Hne. cbn [is_EOF is_nil negb andb].
    destruct (Nat.le_gt_cases c (List.length body)) as [Hge|Hlt].
    + destruct (IH (skipn c body)) as (tr & Hrun & Hframing & Hcat).
      { rewrite length_skipn.
        rewrite (ceil_div_step (List.length body) c Hc Hge) in Hfuel. lia. }
      rewrite Hrun. cbn [fst snd]. eexists. split; [reflexivity|].
      cbn [app frames_of]. split.
      * destruct Hframing as (full & rest & Hfr & Hfull & Hall & Hceil & Hrest).
        rewrite length_skipn in *.
        exists (frame_for_read (@pair bytes error (firstn c body) None) :: full), rest.
        rewrite Hfr. split; [reflexivity|].
        split; [cbn [List.length]; rewrite Hfull; symmetry; now apply div_step|].
        split.
        { constructor; [|exact Hall]. split; [|exact Hne].
          cbn. rewrite length_firstn. lia. }
        split.
        { cbn [app List.length]. rewrite Hceil. symmetry.
          now apply ceil_div_step. }
        rewrite <- (mod_step (List.length body) c Hc Hge). exact Hrest.
      * cbn [map List.concat]. rewrite Hcat. cbn [frame_for_read Data fst].
        apply firstn_skipn.
    + assert (Hall : firstn c body = body) by (apply firstn_all2; lia).
      assert (Hnone : skipn c body = []) by (apply skipn_all2; lia).
      rewrite Hall in *. rewrite Hnone.
      destruct fuel as [|fuel]; [rewrite ceil_div_small in Hfuel; lia|].
      rewrite sendLoop_step.
      change (@Read bytes bytesReader [] c)
        with (@pair (bytes * error) bytes ([], Some EOF) []).
      cbn [fst snd frame_for_read Eof hd is_nil negb nil_error is_EOF andb app].
      eexists. split; [reflexivity|].
      cbn [frames_of map List.concat Data fst app].
      split; [|now rewrite app_nil_r].
      exists [], [frame_for_read (@pair bytes error body None)].
      split; [reflexivity|]. rewrite ceil_div_small by lia.
      rewrite Nat.div_small, Nat.mod_small by lia.
      cbn [List.length app frame_for_read Data Eof fst snd].
      split; [reflexivity|]. split; [constructor|]. split; [reflexivity|].
      split; [reflexivity|]. split; [lia|exact Hne].
Qed.

(** C5, as the specification states it, fails: a body of one byte is not
    streamed as one non-final frame of exactly 10 KiB followed by a final
    frame with the remainder; the one byte travels in a non-final frame and
    a zero-length end-of-stream frame follows. *)
Lemma one_byte_body_not_claimed_framing :
  frames_of (fst (sendToRunner 3 [Byte.x61] []))
  = [ {| Data := [Byte.x61]; Eof := false |}; {| Data := []; Eof := true |} ] /\
  ~ claimed_framing (Z.to_nat MaxDataChunk) 1
      (frames_of (fst (sendToRunner 3 [Byte.x61] []))).
Proof.
  assert (Hrun : frames_of (fst (sendToRunner 3 [Byte.x61] []))
    = [ {| Data := [Byte.x61]; Eof := false |}; {| Data := []; Eof := true |} ])
    by (vm_compute; reflexivity).
  split; [exact Hrun|]. rewrite Hrun.
  intros (nonfinal & final & Heq & Hlen & Hall & _).
  assert (Hone : ceil_div 1 (Z.to_nat MaxDataChunk) = 1) by (vm_compute; reflexivity).
  rewrite Hone in Hlen.
  destruct nonfinal as [|f [|g nonfinal]]; try discriminate Hlen.
  injection Heq as Hf _. subst f.
  apply Forall_inv in Hall. destruct Hall as [Hsize _].
  vm_compute in Hsize. discriminate Hsize.
Qed.

(** C5, amended: an in-memory body of N bytes, read through the 10 KiB
    buffer with every send succeeding, is streamed as floor(N/C) non-final
    frames of exactly C bytes, then, when C does not divide N, one more
    non-final frame with the N mod C remaining bytes (ceil(N/C) non-final
    frames in all), and then always one zero-length end-of-stream frame; the
    frames carry the body, and the streamer returns. *)
Theorem sendToRunner_in_memory_body (body : bytes) (fuel : nat) :
  ceil_div (List.length body) (Z.to_nat MaxDataChunk) + 1 <= fuel ->
  exists tr,
    sendToRunner fuel body [] = (tr, true) /\
    streamed_framing (Z.to_nat MaxDataChunk) (List.length body) (frames_of tr) /\
    List.concat (map Data (frames_of tr)) = body.
Proof.
  intros Hfuel. unfold sendToRunner.
  apply sendLoop_in_memory_body; [|exact Hfuel].
  change (0 < Z.to_nat 10240). lia.
Qed.

Lemma sendToRunner_in_memory_body_witness :
  exists tr,
    sendToRunner 2 [Byte.x61; Byte.x62; Byte.x63] [] = (tr, true) /\
    streamed_framing (Z.to_nat MaxDataChunk) 3 (frames_of tr) /\
    List.concat (map Data (frames_of tr)) = [Byte.x61; Byte.x62; Byte.x63].
Proof.
  apply (sendToRunner_in_memory_body [Byte.x61; Byte.x62; Byte.x63] 2).
  vm_compute. lia.
Defined.

(** ** Latency recording *)

Section StatsProperties.

Context {Time : Type} `{Clock Time}.

Lemma translateDate_parsed (dt : string) :
  timestamp_parsed dt <-> IsZero (translateDate dt) = false.
Proof.
  unfold timestamp_parsed, translateDate.
  destruct (String.eqb_spec dt EmptyString) as [->|Hne]; cbn [negb].
  - rewrite IsZero_time_zero. split; [intros [Habs _]; now elim Habs|discriminate].
  - destruct (ParseDateTime dt) as [t [e|]].
    + rewrite IsZero_time_zero. split; [|discriminate].
      intros [_ (t' & Heq & _)]. discriminate Heq.
    + split.
      * intros [_ (t' & Heq & Hz)]. injection Heq as ->. exact Hz.
      * intros Hz. split; [exact Hne|]. now exists t.
Qed.

Lemma translateDate_value (dt : string) :
  timestamp_parsed dt -> ParseDateTime dt = (translateDate dt, nil_error).
Proof.
  intros [Hne (t & Heq & _)]. unfold translateDate.
  destruct (String.eqb_spec dt EmptyString) as [->|_]; [now elim Hne|].
  cbn [negb]. now rewrite Heq.
Qed.

(** C9: for a Finished message whose scheduler and execution durations are
    both zero, the recorder reads the three timestamps; if all three parse
    and started is not before created nor completed before started, it
    records the scheduler latency started - created and the execution
    latency completed - started and adds the latter to the call's
    execution-time accumulator; otherwise it records nothing. *)
Theorem recordFinishStats_fallback (msg : CallFinished) :
  SchedulerDuration msg = 0%Z ->
  ExecutionDuration msg = 0%Z ->
  let creatTs := translateDate (CreatedAt msg) in
  let startTs := translateDate (StartedAt msg) in
  let complTs := translateDate (CompletedAt msg) in
  let parses :=
    [EvTranslateDate (CreatedAt msg); EvTranslateDate (StartedAt msg);
     EvTranslateDate (CompletedAt msg)] in
  (timestamps_valid msg ->
   ParseDateTime (CreatedAt msg) = (creatTs, nil_error) /\
   ParseDateTime (StartedAt msg) = (startTs, nil_error) /\
   ParseDateTime (CompletedAt msg) = (complTs, nil_error) /\
   recordFinishStats msg
   = parses ++ [StatSchedLatency (Sub startTs creatTs);
                StatExecLatency (Sub complTs startTs);
                AddUserExecutionTime (Sub complTs startTs)]) /\
  (~ timestamps_valid msg -> recordFinishStats msg = parses).
Proof.
  intros Hsched Hexec creatTs startTs complTs parses.
  unfold recordFinishStats. rewrite Hsched, Hexec. cbn [Z.eqb negb orb].
  fold creatTs startTs complTs. split.
  - intros (Hc & Hs & He & Hsc & Hes).
    repeat (split; [now apply translateDate_value|]).
    apply translateDate_parsed in Hc, Hs, He.
    fold creatTs in Hc, Hsc. fold startTs in Hs, Hsc, Hes. fold complTs in He, Hes.
    now rewrite Hc, Hs, He, Hsc, Hes.
  - intros Hinvalid.
    destruct (IsZero creatTs) eqn:Hc; [now rewrite app_nil_r|].
    destruct (IsZero startTs) eqn:Hs; [now rewrite app_nil_r|].
    destruct (IsZero complTs) eqn:He; [now rewrite app_nil_r|].
    destruct (Before startTs creatTs) eqn:Hsc; [now rewrite app_nil_r|].
    destruct (Before complTs startTs) eqn:Hes; [now rewrite app_nil_r|].
    elim Hinvalid. repeat split; try apply translateDate_parsed; assumption.
Qed.

(** C10: a Finished message with a non-zero scheduler duration and a zero
    execution duration takes the direct path: the scheduler latency is the
    only thing recorded, nothing is added to the execution-time
    accumulator, and no timestamp is handed to the parser, whatever the
    timestamps are. *)
Theorem recordFinishStats_scheduler_only (msg : CallFinished) :
  SchedulerDuration msg <> 0%Z ->
  ExecutionDuration msg = 0%Z ->
  recordFinishStats msg = [StatSchedLatency (SchedulerDuration msg)].
Proof.
  intros Hsched Hexec. unfold recordFinishStats. rewrite Hexec.
  apply Z.eqb_neq in Hsched. now rewrite Hsched.
Qed.

End StatsProperties.

Lemma recordFinishStats_fallback_witness :
  recordFinishStats (finished 0 0 "1000" "1200" "1700")
  = [EvTranslateDate "1000"; EvTranslateDate "1200"; EvTranslateDate "1700";
     StatSchedLatency 200; StatExecLatency 500; AddUserExecutionTime 500] /\
  recordFinishStats (finished 0 0 "1000" EmptyString "1700")
  = [EvTranslateDate "1000"; EvTranslateDate EmptyString; EvTranslateDate "1700"].
Proof.
  split.
  - destruct (proj1 (recordFinishStats_fallback
                       (finished 0 0 "1000" "1200" "1700") eq_refl eq_refl))
      as (_ & _ & _ & Hrec).
    + repeat split; try discriminate; try (now exists 1000%Z);
        try (now exists 1200%Z); try (now exists 1700%Z).
    + exact Hrec.
  - apply (proj2 (recordFinishStats_fallback
                    (finished 0 0 "1000" EmptyString "1700") eq_refl eq_refl)).
    intros (_ & [Hne _] & _). now apply Hne.
Defined.

Lemma recordFinishStats_scheduler_only_witness :
  recordFinishStats (finished 1000000 0 "1000" "1200" "1700")
  = [StatSchedLatency 1000000].
Proof.
  apply (recordFinishStats_scheduler_only (finished 1000000 0 "1000" "1200" "1700")).
  - discriminate.
  - reflexivity.
Defined.

(** ** The inbound response receiver *)

Lemma count_app (p : revent -> bool) (tr1 tr2 : list revent) :
  count p (tr1 ++ tr2) = count p tr1 + count p tr2.
Proof. unfold count. now rewrite filter_app, length_app. Qed.

Lemma count_cons (p : revent -> bool) (e : revent) (tr : list revent) :
  count p (e :: tr) = (if p e then 1 else 0) + count p tr.
Proof. unfold count. cbn. now destruct (p e). Qed.

Lemma count_nil (p : revent -> bool) : count p [] = 0.
Proof. reflexivity. Qed.

Lemma count_map_EvStat (p : revent -> bool) (l : list stat_event) :
  (forall s, p (EvStat s) = false) -> count p (map EvStat l) = 0.
Proof.
  intros Hp. induction l as [|s l IH]; [reflexivity|].
  cbn [map]. now rewrite count_cons, Hp, IH.
Qed.

Lemma quiet_app (tr1 tr2 : list revent) :
  quiet (tr1 ++ tr2) <-> quiet tr1 /\ quiet tr2.
Proof. apply Forall_app. Qed.

Lemma quiet_map_EvStat (l : list stat_event) : quiet (map EvStat l).
Proof. induction l; constructor; auto. Qed.

Lemma quiet_count (tr : list revent) :
  quiet tr -> count is_Write tr = 0 /\ count is_short_write_post tr = 0.
Proof.
  induction 1 as [|e tr [Hw Hp] _ [IHw IHp]]; [now split|].
  now rewrite !count_cons, Hw, Hp, IHw, IHp.
Qed.

Lemma quiet_latched (tr : list revent) : quiet tr -> latched tr.
Proof.
  induction 1 as [|e tr [Hw Hp] _ IH]; [exact I|].
  destruct e as [| | | | site ? ?| | |]; try exact IH; try discriminate.
  destruct site; try exact IH; discriminate.
Qed.

Lemma latched_snoc_quiet (tr : list revent) (e : revent) :
  is_Write e = false -> is_short_write_post e = false ->
  latched tr -> latched (tr ++ [e]).
Proof.
  intros Hw Hp. induction tr as [|ev tr IH]; intros Hl.
  - apply quiet_latched. constructor; [now split|constructor].
  - destruct ev as [| | |data n err| site ? ?| | |]; cbn in *; auto.
    + destruct (n =? Z.of_nat (List.length data))%Z; [auto|].
      destruct Hl as (tr'' & -> & Hq). exists (tr'' ++ [e]). split; [reflexivity|].
      apply quiet_app. split; [exact Hq|]. constructor; [now split|constructor].
    + destruct site; auto.
Qed.

(** Splitting a latched trace at a short write. *)
Lemma latched_split (tr1 tr2 : list revent) (data : bytes) (n : Z) (err : error) :
  latched (tr1 ++ EvWrite data n err :: tr2) ->
  n <> Z.of_nat (List.length data) ->
  exists tr3,
    tr2 = EvQueue QShortWrite (short_write_error err) true :: tr3 /\
    quiet tr3 /\ count is_short_write_post tr1 = 0.
Proof.
  intros Hl Hn. induction tr1 as [|ev tr1 IH].
  - cbn in Hl. apply Z.eqb_neq in Hn. rewrite Hn in Hl.
    destruct Hl as (tr3 & -> & Hq). now exists tr3.
  - destruct ev as [| | |data' n' err'| site ? ?| | |]; cbn [app latched] in Hl;
      try (destruct (IH Hl) as (tr3 & ? & ? & ?); exists tr3;
           rewrite count_cons; now repeat split).
    + destruct (n' =? Z.of_nat (List.length data'))%Z.
      * destruct (IH Hl) as (tr3 & ? & ? & ?). exists tr3.
        rewrite count_cons. now repeat split.
      * destruct Hl as (tr'' & Heq & Hq). exfalso.
        destruct tr1 as [|ev tr1]; [discriminate Heq|].
        injection Heq as _ <-. apply quiet_app in Hq. destruct Hq as [_ Hq].
        apply Forall_inv in Hq. destruct Hq as [Hw _]. discriminate Hw.
    + destruct site; try (destruct (IH Hl) as (tr3 & ? & ? & ?); exists tr3;
           rewrite count_cons; now repeat split).
      contradiction.
Qed.

Section ReceiverProperties.

Context {Time : Type} `{Clock Time} {W : Type} `{ResponseWriter W}.

Lemma set_headers_count (p : revent -> bool) (w : W) (hs : list (string * string)) :
  (forall k v, p (EvHeaderSet k v) = false) ->
  count p (fst (set_headers w hs)) = 0.
Proof.
  intros Hp. revert w. induction hs as [|[k v] hs IH]; intros w; [reflexivity|].
  cbn [set_headers]. specialize (IH (Header_Set w k v)).
  destruct (set_headers (Header_Set w k v) hs) as [tr w']. cbn [fst] in *.
  now rewrite count_cons, Hp, IH.
Qed.

Lemma set_headers_quiet (w : W) (hs : list (string * string)) :
  quiet (fst (set_headers w hs)).
Proof.
  revert w. induction hs as [|[k v] hs IH]; intros w; [constructor|].
  cbn [set_headers]. specialize (IH (Header_Set w k v)).
  destruct (set_headers (Header_Set w k v) hs) as [tr w']. cbn [fst] in *.
  constructor; [now split|exact IH].
Qed.

Lemma drainLoop_count (p : revent -> bool) (final : error_val) :
  p EvRecv = false ->
  (forall s e a, s <> QShortWrite -> p (EvQueue s e a) = false) ->
  forall msgs done, count p (fst (drainLoop msgs final done)) = 0.
Proof.
  intros Hr Hq. induction msgs as [|m rest IH]; intros done.
  - cbn [drainLoop]. destruct final; cbn [fst]; unfold queue;
      rewrite ?count_cons, ?Hr, ?Hq, ?count_nil by discriminate; reflexivity.
  - cbn [drainLoop].
    specialize (IH (tryQueueError (Some ErrorPureRunnerNoEOF) done)).
    destruct (drainLoop rest final _) as [tr done']. cbn [fst] in *.
    unfold queue. now rewrite !count_cons, Hr, Hq, IH by discriminate.
Qed.

Lemma drainLoop_quiet (final : error_val) :
  forall msgs done, quiet (fst (drainLoop msgs final done)).
Proof.
  induction msgs as [|m rest IH]; intros done.
  - cbn [drainLoop]. destruct final; cbn [fst]; repeat constructor.
  - cbn [drainLoop].
    specialize (IH (tryQueueError (Some ErrorPureRunnerNoEOF) done)).
    destruct (drainLoop rest final _) as [tr done']. cbn [fst] in *.
    repeat (constructor; [now split|]). exact IH.
Qed.

Lemma drainLoop_Recv (final : error_val) :
  forall msgs done,
    count is_Recv (fst (drainLoop msgs final done)) = S (List.length msgs).
Proof.
  induction msgs as [|m rest IH]; intros done.
  - cbn [drainLoop]. now destruct final.
  - cbn [drainLoop].
    specialize (IH (tryQueueError (Some ErrorPureRunnerNoEOF) done)).
    destruct (drainLoop rest final _) as [tr done']. cbn [fst] in *.
    unfold queue. rewrite !count_cons, IH. reflexivity.
Qed.

(** Runs the rest of the first loop, keeping what the induction hypothesis
    says of it. *)
Ltac run_rest IH :=
  match goal with
  | |- context [DataLoop ?rest ?final ?st] =>
      let IHst := fresh "IHst" in
      pose proof (IH st) as IHst;
      destruct (DataLoop rest final st) as [? ?]; cbn [fst snd] in IHst |- *
  end.

Lemma DataLoop_WriteHeader (final : error_val) :
  forall msgs st,
    count is_WriteHeader (fst (DataLoop msgs final st))
    = List.length (filter has_positive_status (before_Finished msgs)).
Proof.
  induction msgs as [|msg rest IH]; intros st; [reflexivity|].
  cbn [DataLoop before_Finished].
  destruct msg as [[meta|]|body|body|];
    cbn [is_Finished filter has_positive_status List.length].
  - pose proof (set_headers_count is_WriteHeader (rs_w st) (Headers meta)
                  (fun _ _ => eq_refl)) as Hh.
    destruct (set_headers (rs_w st) (Headers meta)) as [trh w1]. cbn [fst] in Hh.
    destruct (StatusCode meta >? 0)%Z; run_rest IH;
      rewrite count_cons, count_app, ?count_cons, Hh, IHst; reflexivity.
  - run_rest IH. now rewrite count_cons.
  - destruct (negb (rs_isPartialWrite st)).
    + destruct (Write (rs_w st) (Data body)) as [[n err] w1].
      destruct (negb (n =? Z.of_nat (List.length (Data body)))%Z); run_rest IH;
        unfold queue; now rewrite !count_cons.
    + run_rest IH. now rewrite count_cons.
  - pose proof (drainLoop_count is_WriteHeader final eq_refl
                  (fun _ _ _ _ => eq_refl) rest) as Hd.
    match goal with |- context [drainLoop rest final ?d] => specialize (Hd d);
      destruct (drainLoop rest final d) as [tr done2] end.
    cbn [fst] in *. rewrite !count_cons, !count_app, Hd.
    rewrite count_map_EvStat by reflexivity.
    now destruct (negb (Success body)).
  - run_rest IH. now rewrite count_cons.
Qed.

(** C4, amended: within one exchange the receiver calls the status-code
    setter once for each Result Start message with a positive HTTP status
    code that arrives before the Finished message, and at no other time; so
    at most once when at most one such message arrives. *)
Theorem receiveFromRunner_WriteHeader_calls (w : W) (msgs : list RunnerMsg)
  (final : error_val) (done : chan) :
  count is_WriteHeader (fst (receiveFromRunner w msgs final done))
  = List.length (filter has_positive_status (before_Finished msgs)).
Proof.
  unfold receiveFromRunner.
  pose proof (DataLoop_WriteHeader final msgs
    {| rs_w := w; rs_done := done; rs_statusCode := 0;
       rs_isPartialWrite := false |}) as Hloop.
  destruct (DataLoop msgs final _) as [tr st]. cbn [fst] in *.
  now rewrite count_app, Hloop, count_cons, count_nil.
Qed.

Lemma DataLoop_Recv (final : error_val) :
  forall msgs st,
    count is_Recv (fst (DataLoop msgs final st)) = S (List.length msgs).
Proof.
  induction msgs as [|msg rest IH]; intros st; [reflexivity|].
  cbn [DataLoop List.length].
  destruct msg as [[meta|]|body|body|].
  - pose proof (set_headers_count is_Recv (rs_w st) (Headers meta)
                  (fun _ _ => eq_refl)) as Hh.
    destruct (set_headers (rs_w st) (Headers meta)) as [trh w1]. cbn [fst] in Hh.
    destruct (StatusCode meta >? 0)%Z; run_rest IH;
      rewrite count_cons, count_app, ?count_cons, Hh, IHst; reflexivity.
  - run_rest IH. now rewrite count_cons, IHst.
  - destruct (negb (rs_isPartialWrite st)).
    + destruct (Write (rs_w st) (Data body)) as [[n err] w1].
      destruct (negb (n =? Z.of_nat (List.length (Data body)))%Z); run_rest IH;
        unfold queue; now rewrite !count_cons, IHst.
    + run_rest IH. now rewrite count_cons, IHst.
  - match goal with |- context [drainLoop rest final ?d] =>
      pose proof (drainLoop_Recv final rest d) as Hd;
      destruct (drainLoop rest final d) as [tr done2] end.
    cbn [fst] in *. rewrite !count_cons, !count_app, Hd.
    rewrite count_map_EvStat by reflexivity.
    now destruct (negb (Success body)).
  - run_rest IH. now rewrite count_cons, IHst.
Qed.

Lemma quiet_finish (body : CallFinished) (statusCode : Z) (done : chan)
  (tr : list revent) :
  quiet tr ->
  quiet (EvRecv :: EvLogCallFinish (logCallFinish_warns body) statusCode
           :: map EvStat (recordFinishStats body)
           ++ (if negb (Success body)
               then [queue QFinished (parseError body) done] else [])
           ++ tr).
Proof.
  intros Hq. repeat (constructor; [now split|]).
  apply quiet_app. split; [apply quiet_map_EvStat|].
  apply quiet_app. split; [|exact Hq].
  destruct (negb (Success body)); repeat constructor.
Qed.

(** Once the latch is set the first loop neither writes to the sink nor
    posts a short-write error. *)
Lemma DataLoop_quiet (final : error_val) :
  forall msgs st,
    rs_isPartialWrite st = true -> quiet (fst (DataLoop msgs final st)).
Proof.
  induction msgs as [|msg rest IH]; intros st Hlatch.
  - cbn [DataLoop fst]. repeat constructor.
  - cbn [DataLoop]. destruct msg as [[meta|]|body|body|].
    + pose proof (set_headers_quiet (rs_w st) (Headers meta)) as Hh.
      destruct (set_headers (rs_w st) (Headers meta)) as [trh w1]. cbn [fst] in Hh.
      destruct (StatusCode meta >? 0)%Z; run_rest IH;
        (constructor; [now split|]); apply quiet_app; (split; [exact Hh|]).
      * constructor; [now split|]. now apply IHst.
      * now apply IHst.
    + run_rest IH. constructor; [now split|]. now apply IHst.
    + rewrite Hlatch. cbn [negb]. run_rest IH.
      constructor; [now split|]. now apply IHst.
    + match goal with |- context [drainLoop rest final ?d] =>
        pose proof (drainLoop_quiet final rest d) as Hd;
        destruct (drainLoop rest final d) as [tr done2] end.
      cbn [fst] in *. now apply quiet_finish.
    + run_rest IH. constructor; [now split|]. now apply IHst.
Qed.

Lemma latched_quiet_app (tr1 tr2 : list revent) :
  quiet tr1 -> latched tr2 -> latched (tr1 ++ tr2).
Proof.
  intros Hq Hl. induction Hq as [|e tr1 [Hw Hp] _ IH]; [exact Hl|].
  destruct e as [| | | | site ? ?| | |]; try exact IH; try discriminate.
  destruct site; try exact IH; discriminate.
Qed.

(** While the latch is not set and nothing has been posted, the first loop
    keeps the latch discipline. *)
Lemma DataLoop_latched (final : error_val) :
  forall msgs st,
    rs_isPartialWrite st = false ->
    queue_accepts (rs_done st) = true ->
    latched (fst (DataLoop msgs final st)).
Proof.
  induction msgs as [|msg rest IH]; intros st Hlatch Hfree.
  - exact I.
  - cbn [DataLoop]. destruct msg as [[meta|]|body|body|].
    + pose proof (set_headers_quiet (rs_w st) (Headers meta)) as Hh.
      destruct (set_headers (rs_w st) (Headers meta)) as [trh w1]. cbn [fst] in Hh.
      destruct (StatusCode meta >? 0)%Z; run_rest IH; cbn [latched];
        apply latched_quiet_app; try exact Hh; cbn [latched]; now apply IHst.
    + run_rest IH. now apply IHst.
    + rewrite Hlatch. cbn [negb].
      destruct (Write (rs_w st) (Data body)) as [[n err] w1].
      destruct (n =? Z.of_nat (List.length (Data body)))%Z eqn:Hn; cbn [negb].
      * run_rest IH. cbn [latched]. rewrite Hn. now apply IHst.
      * pose proof (DataLoop_quiet final rest
          {| rs_w := w1;
             rs_done := tryQueueError
                          match err with
                          | Some _ => err
                          | None => Some ErrShortWrite
                          end (rs_done st);
             rs_statusCode := rs_statusCode st;
             rs_isPartialWrite := true |} eq_refl) as Hq.
        destruct (DataLoop rest final _) as [tr st']. cbn [fst] in *.
        cbn [latched]. rewrite Hn. exists tr. split; [|exact Hq].
        unfold queue. rewrite Hfree. reflexivity.
    + match goal with |- context [drainLoop rest final ?d] =>
        pose proof (drainLoop_quiet final rest d) as Hd;
        destruct (drainLoop rest final d) as [tr done2] end.
      cbn [fst] in *. apply quiet_latched. now apply quiet_finish.
    + run_rest IH. now apply IHst.
Qed.

(** The latch as the trace shows it: a short write is followed at once by
    the post of its error, no sink write and no other short-write post comes
    after it, and the receiver goes on receiving to the end of the stream. *)
Lemma receiveFromRunner_latch_trace (w : W) (msgs : list RunnerMsg)
  (final : error_val) (tr1 tr2 : list revent) (data : bytes) (n : Z)
  (err : error) :
  fst (receiveFromRunner w msgs final make_chan)
  = tr1 ++ EvWrite data n err :: tr2 ->
  (n < Z.of_nat (List.length data))%Z ->
  exists tr3,
    tr2 = EvQueue QShortWrite (short_write_error err) true :: tr3 /\
    count is_Write tr3 = 0 /\
    count is_short_write_post (fst (receiveFromRunner w msgs final make_chan)) = 1 /\
    count is_Recv tr1 + count is_Recv tr3 = S (List.length msgs).
Proof.
  intros Htrace Hshort.
  pose proof (DataLoop_latched final msgs
    {| rs_w := w; rs_done := make_chan; rs_statusCode := 0;
       rs_isPartialWrite := false |} eq_refl eq_refl) as Hl.
  pose proof (DataLoop_Recv final msgs
    {| rs_w := w; rs_done := make_chan; rs_statusCode := 0;
       rs_isPartialWrite := false |}) as Hr.
  unfold receiveFromRunner in *.
  destruct (DataLoop msgs final _) as [tr st]. cbn [fst] in *.
  apply (latched_snoc_quiet tr EvClose eq_refl eq_refl) in Hl.
  rewrite Htrace in Hl.
  destruct (latched_split tr1 tr2 data n err Hl ltac:(lia)) as (tr3 & -> & Hq & Hp1).
  exists tr3. destruct (quiet_count tr3 Hq) as [Hw3 Hp3].
  split; [reflexivity|]. split; [exact Hw3|]. split.
  - rewrite Htrace, count_app, !count_cons, Hp1, Hp3. reflexivity.
  - assert (Hc : count is_Recv (tr ++ [EvClose]) = S (List.length msgs))
      by (now rewrite count_app, Hr, count_cons, count_nil, Nat.add_0_r).
    rewrite Htrace, count_app, !count_cons in Hc. exact Hc.
Qed.

(** The deferred [close(done)]: whatever the path, the receiver leaves the
    channel closed, so a receive on it never blocks; it yields the value
    posted first until someone takes it, and nil when nothing was posted. *)
Lemma receiveFromRunner_closes_done (w : W) (msgs : list RunnerMsg)
  (final : error_val) (done : chan) :
  closed (snd (snd (receiveFromRunner w msgs final done))) = true /\
  chan_recv (snd (snd (receiveFromRunner w msgs final done)))
  = Some match buf (snd (snd (receiveFromRunner w msgs final done))) with
         | Some e => e
         | None => nil_error
         end.
Proof.
  unfold receiveFromRunner. destruct (DataLoop msgs final _) as [tr st].
  cbn [snd fst]. unfold chan_recv, close. cbn [buf closed].
  split; [reflexivity|]. now destruct (buf (rs_done st)).
Qed.

End ReceiverProperties.
(** C4, as the specification states it, fails: two Result Start messages
    with a positive status make the receiver call the status-code setter
    twice. *)
Lemma two_result_starts_set_status_twice :
  sink_status
    (fst (snd (receiveFromRunner (empty_sink 100) two_result_starts EOF make_chan)))
  = [200%Z; 200%Z] /\
  ~ (count is_WriteHeader
       (fst (receiveFromRunner (empty_sink 100) two_result_starts EOF make_chan))
     <= 1).
Proof. split; [reflexivity|]. vm_compute. lia. Qed.

(** * Further properties *)

(** ** The engagement orchestrator, path by path *)

(** X1: [TryExec] answers committed=false, the licence to retry the call
    elsewhere, in exactly four situations: the session guard refused; the
    stream could not be opened; the placement send failed with status
    "unavailable"; or the terminal signal classified as busy.  A failure to
    encode the model, any other send error, a cancelled context and every
    other terminal signal are committed. *)
Theorem TryExec_not_committed_iff (r : Engagement) (call : RunnerCall) :
  fst (fst (TryExec r call)) = false <->
  AddSession r = false \/
  (AddSession r = true /\ snd (Model_json call) = nil_error /\
   (Engage r <> nil_error \/
    (Engage r = nil_error /\ SendTry r <> nil_error /\
     status.Code (SendTry r) = codes.Unavailable) \/
    (Engage r = nil_error /\ SendTry r = nil_error /\
     exists v, Race r = RecvDone v /\ isTooBusy v = true))).
Proof.
  unfold TryExec, nil_error.
  destruct (AddSession r); cbn [negb fst]; [|split; [now left|reflexivity]].
  destruct (Model_json call) as [json [e|]]; cbn [fst snd].
  { split; [discriminate|]. intros [Hg|(_ & Hm & _)]; discriminate. }
  destruct (Engage r) as [e|]; cbn [fst].
  { split; [|reflexivity]. intros _. right. repeat split. left. discriminate. }
  destruct (SendTry r) as [e|] eqn:Hsend; cbn [fst].
  { rewrite negb_false_iff, Z.eqb_eq. split.
    - intros Hc. right. repeat split. right. left. repeat split; [discriminate|exact Hc].
    - intros [Hg|(_ & _ & [He|[(_ & _ & Hc)|(_ & Hs & _)]])];
        try discriminate; [now elim He|exact Hc]. }
  destruct (Race r) as [ctxErr|recvErr]; cbn [fst].
  { split; [discriminate|].
    intros [Hg|(_ & _ & [He|[(_ & Hs & _)|(_ & _ & v & Hv & _)]])];
      try discriminate; [now elim He|now elim Hs]. }
  destruct (isTooBusy recvErr) eqn:Hbusy; cbn [fst].
  - split; [|reflexivity]. intros _. right. repeat split. right. right.
    repeat split. now exists recvErr.
  - split; [discriminate|].
    intros [Hg|(_ & _ & [He|[(_ & Hs & _)|(_ & _ & v & Hv & Hb)]])];
      try discriminate; [now elim He|now elim Hs|].
    injection Hv as <-. congruence.
Qed.

(** X2: the session accounting is balanced on every path.  The guard is
    asked exactly once and first; when it admits the call, the session is
    released exactly once and last, whatever happens in between; when it
    refuses, there is nothing to release and nothing is released. *)
Theorem TryExec_session_balanced (r : Engagement) (call : RunnerCall) :
  let tr := snd (TryExec r call) in
  hd_error tr = Some ActAddSession /\
  List.length (filter is_AddSession tr) = 1 /\
  List.length (filter is_DoneSession tr) = (if AddSession r then 1 else 0) /\
  last tr ActAddSession
  = (if AddSession r then ActDoneSession else ActAddSession).
Proof.
  unfold TryExec.
  destruct (AddSession r); cbn [negb]; [|now repeat split].
  destruct (Model_json call) as [json [e|]]; [now repeat split|].
  destruct (negb (String.eqb (RequestID r) EmptyString));
    (destruct (Engage r); [now repeat split|]);
    (destruct (SendTry r); [now repeat split|]);
    (destruct (Race r) as [ctxErr|recvErr]; [now repeat split|]);
    now destruct (isTooBusy recvErr).
Qed.

(** X3: at most one placement request is sent per exchange, and the receiver
    and the streamer are started exactly when the guard admitted the call,
    the model was encoded, the stream was opened and the placement send
    succeeded; the stream is opened only after the model was encoded. *)
Theorem TryExec_launch_after_placement (r : Engagement) (call : RunnerCall) :
  let tr := snd (TryExec r call) in
  List.length (filter is_Send tr) <= 1 /\
  (List.length (filter is_Go tr) = 2 \/ List.length (filter is_Go tr) = 0) /\
  (List.length (filter is_Go tr) = 2 <->
   AddSession r = true /\ snd (Model_json call) = nil_error /\
   Engage r = nil_error /\ SendTry r = nil_error) /\
  (List.length (filter is_Engage tr) = 1 <->
   AddSession r = true /\ snd (Model_json call) = nil_error).
Proof.
  unfold TryExec, nil_error.
  destruct (AddSession r); cbn [negb];
    [|cbn; intuition (discriminate || lia)].
  destruct (Model_json call) as [json [e|]]; cbn [snd];
    [cbn; intuition (discriminate || lia)|].
  destruct (negb (String.eqb (RequestID r) EmptyString));
    (destruct (Engage r); [cbn; intuition (discriminate || lia)|]);
    (destruct (SendTry r); [cbn; intuition (discriminate || lia)|]);
    (destruct (Race r) as [ctxErr|recvErr]; [cbn; intuition (discriminate || lia)|]);
    destruct (isTooBusy recvErr); cbn; intuition (discriminate || lia).
Qed.

(** X4: a model that cannot be encoded is a committed failure with the
    encoder's error: no runner is contacted (the stream is never opened,
    nothing is sent) and the session is released. *)
Theorem TryExec_marshal_failure (r : Engagement) (call : RunnerCall)
  (json : string) (e : error_val) :
  AddSession r = true ->
  Model_json call = (json, Some e) ->
  TryExec r call = ((true, Some e), [ActAddSession; ActMarshal; ActDoneSession]).
Proof. intros Hguard Hjson. unfold TryExec. now rewrite Hguard, Hjson. Qed.

Lemma TryExec_marshal_failure_witness :
  TryExec (exchange_ending_with nil_error)
    {| Model_json := (EmptyString, Some (PlainError "unsupported type"));
       call_SlotHashId := "slot"; call_Extensions := [] |}
  = ((true, Some (PlainError "unsupported type")),
     [ActAddSession; ActMarshal; ActDoneSession]).
Proof.
  apply (TryExec_marshal_failure (exchange_ending_with nil_error) _ EmptyString
           (PlainError "unsupported type")); reflexivity.
Defined.

(** X5: a stream that cannot be opened is a retry-safe failure with the
    error of [Engage]: nothing was sent and neither task was started. *)
Theorem TryExec_engage_failure (r : Engagement) (call : RunnerCall)
  (json : string) (e : error_val) :
  AddSession r = true ->
  Model_json call = (json, nil_error) ->
  Engage r = Some e ->
  fst (TryExec r call) = (false, Some e) /\
  filter is_Send (snd (TryExec r call)) = [] /\
  filter is_Go (snd (TryExec r call)) = [].
Proof.
  intros Hguard Hjson Hengage. unfold TryExec.
  rewrite Hguard, Hjson, Hengage. cbn [negb nil_error fst snd].
  now destruct (negb (String.eqb (RequestID r) EmptyString)).
Qed.

Lemma TryExec_engage_failure_witness :
  fst (TryExec {| AddSession := true; RequestID := "rid";
                  Engage := Some (StatusError 14 "connection refused");
                  SendTry := nil_error; Race := RecvDone nil_error |} sample_call)
  = (false, Some (StatusError 14 "connection refused")).
Proof.
  apply (TryExec_engage_failure _ sample_call "{}"
           (StatusError 14 "connection refused")); reflexivity.
Defined.

(** X6: when the context ends first, the exchange is committed with the
    context's error as it is: the error is not run through the classifier,
    so cancellation is never reported as retry-safe. *)
Theorem TryExec_cancelled (r : Engagement) (call : RunnerCall) (json : string)
  (ctxErr : error) :
  AddSession r = true ->
  Model_json call = (json, nil_error) ->
  Engage r = nil_error ->
  SendTry r = nil_error ->
  Race r = CtxDone ctxErr ->
  fst (TryExec r call) = (true, ctxErr).
Proof.
  intros Hguard Hjson Hengage Hsend Hrace.
  now rewrite (TryExec_engaged r call json Hguard Hjson Hengage), Hsend, Hrace.
Qed.

Lemma TryExec_cancelled_witness :
  fst (TryExec {| AddSession := true; RequestID := EmptyString;
                  Engage := nil_error; SendTry := nil_error;
                  Race := CtxDone (Some (APIError 503 "busy")) |} sample_call)
  = (true, Some (APIError 503 "busy")).
Proof.
  apply (TryExec_cancelled _ sample_call "{}" (Some (APIError 503 "busy")));
    reflexivity.
Defined.

(** X7: on the terminal-signal path the two results agree: the error
    [TryExec] returns classifies as busy exactly when it answers
    committed=false, so a caller may tell a busy rejection by either. *)
Theorem TryExec_terminal_signal_consistent (r : Engagement) (call : RunnerCall)
  (json : string) (v : error) :
  AddSession r = true ->
  Model_json call = (json, nil_error) ->
  Engage r = nil_error ->
  SendTry r = nil_error ->
  Race r = RecvDone v ->
  fst (fst (TryExec r call)) = negb (isTooBusy (snd (fst (TryExec r call)))).
Proof.
  intros Hguard Hjson Hengage Hsend Hrace.
  rewrite (TryExec_engaged r call json Hguard Hjson Hengage), Hsend, Hrace.
  unfold nil_error.
  destruct (isTooBusy v) eqn:Hbusy; cbn [fst snd]; [reflexivity|].
  now rewrite Hbusy.
Qed.

Lemma TryExec_terminal_signal_consistent_witness :
  fst (fst (TryExec (exchange_ending_with (Some (StatusError 503 "busy"))) sample_call))
  = negb (isTooBusy (snd (fst
      (TryExec (exchange_ending_with (Some (StatusError 503 "busy"))) sample_call)))).
Proof.
  apply (TryExec_terminal_signal_consistent _ sample_call "{}"
           (Some (StatusError 503 "busy"))); reflexivity.
Defined.

(** ** Classification of worker and transport errors *)

(** X8: the classifier accepts three shapes of error and no other: a
    structured application error of code 503, the same wrapped as a
    user-caused error, and a gRPC status of code 503.  No sentinel, no plain
    error and no structured error or status of another code, the transport's
    "unavailable" among them, is busy. *)
Theorem isTooBusy_shapes (e : error_val) :
  isTooBusy (Some e) = true <->
  (exists msg, e = APIError 503 msg) \/
  (exists msg, e = FuncError 503 msg) \/
  (exists msg, e = StatusError 503 msg).
Proof.
  rewrite isTooBusy_unfold. unfold busy_code.
  destruct e as [| | | |msg|c msg|c msg|c msg]; cbn;
    try (split; [discriminate|intros [[m Hm]|[[m Hm]|[m Hm]]]; discriminate]).
  - rewrite orb_false_r, Z.eqb_eq. split.
    + intros ->. left. now exists msg.
    + intros [[m Hm]|[[m Hm]|[m Hm]]]; congruence.
  - rewrite orb_false_r, Z.eqb_eq. split.
    + intros ->. right. left. now exists msg.
    + intros [[m Hm]|[[m Hm]|[m Hm]]]; congruence.
  - unfold status.Code. cbn. rewrite Z.eqb_eq. split.
    + intros ->. right. right. now exists msg.
    + intros [[m Hm]|[[m Hm]|[m Hm]]]; congruence.
Qed.

(** X9: [parseError] gives nil exactly for a successful Finished message;
    for a failed one it gives an error that carries the message's error
    code, whether or not the failure is marked user-caused, and is never
    [io.EOF]. *)
Theorem parseError_code (msg : CallFinished) :
  (parseError msg = nil_error <-> Success msg = true) /\
  (Success msg = false ->
   models.GetAPIErrorCode (parseError msg) = ErrorCode msg /\
   is_EOF (parseError msg) = false).
Proof.
  unfold parseError, nil_error. destruct (Success msg).
  - split; [tauto|discriminate].
  - split; [split; [destruct (ErrorUser msg)|]; discriminate|].
    intros _. now destruct (ErrorUser msg).
Qed.

Lemma parseError_code_witness :
  models.GetAPIErrorCode
    (parseError {| Success := false; ErrorCode := 400; ErrorStr := "bad input";
                   ErrorUser := true; SchedulerDuration := 0;
                   ExecutionDuration := 0; CreatedAt := EmptyString;
                   StartedAt := EmptyString; CompletedAt := EmptyString |})
  = 400%Z.
Proof.
  apply (proj2 (parseError_code
    {| Success := false; ErrorCode := 400; ErrorStr := "bad input";
       ErrorUser := true; SchedulerDuration := 0; ExecutionDuration := 0;
       CreatedAt := EmptyString; StartedAt := EmptyString;
       CompletedAt := EmptyString |}) eq_refl).
Defined.

Lemma isTooBusy_parseError (msg : CallFinished) :
  isTooBusy (parseError msg) = true <->
  Success msg = false /\ ErrorCode msg = 503%Z.
Proof.
  rewrite isTooBusy_unfold. unfold parseError, busy_code.
  destruct (Success msg); cbn; [split; [discriminate|intros []; discriminate]|].
  destruct (ErrorUser msg); cbn; rewrite orb_false_r, Z.eqb_eq; tauto.
Qed.

(** X10: the error built from a Finished message classifies as busy exactly
    when the message reports a failure with error code 503; neither the
    error string nor the user-error mark plays a part. *)
Theorem parseError_busy_iff (msg : CallFinished) :
  isTooBusy (parseError msg) = true <->
  Success msg = false /\ ErrorCode msg = 503%Z.
Proof. apply isTooBusy_parseError. Qed.

(** X11: the completion record is logged as a warning exactly when the
    worker reports a failure that is neither user-caused nor one the
    classifier takes for busy: a busy rejection, which the orchestrator
    turns into a retry, is logged at normal severity. *)
Theorem logCallFinish_warns_iff (msg : CallFinished) :
  logCallFinish_warns msg = true <->
  Success msg = false /\ ErrorUser msg = false /\
  isTooBusy (parseError msg) = false.
Proof.
  unfold logCallFinish_warns.
  destruct (isTooBusy (parseError msg)) eqn:Hbusy.
  - apply isTooBusy_parseError in Hbusy. destruct Hbusy as [Hs Hc].
    rewrite Hs, Hc. cbn. rewrite andb_false_r.
    split; [discriminate|intros (_ & _ & ?); discriminate].
  - assert (Hn : ~ (Success msg = false /\ ErrorCode msg = 503%Z)).
    { intros Hb. apply isTooBusy_parseError in Hb. congruence. }
    destruct (Success msg); cbn; [split; [discriminate|intros []; discriminate]|].
    destruct (ErrorUser msg); cbn;
      [split; [discriminate|intros (_ & ? & _); discriminate]|].
    destruct (Z.eqb_spec (ErrorCode msg) 503); cbn; [now elim Hn|tauto].
Qed.

(** ** The terminal-signal channel *)

(** X12: first write wins.  However many values are posted with
    [tryQueueError], the slot keeps the value it held, or else the first
    value posted, and posting neither closes nor reopens the channel. *)
Theorem tryQueueError_first_wins (errs : list error) (done : chan) :
  buf (fold_left (fun d e => tryQueueError e d) errs done)
  = match buf done with
    | Some v => Some v
    | None => hd_error errs
    end /\
  closed (fold_left (fun d e => tryQueueError e d) errs done) = closed done.
Proof.
  revert done. induction errs as [|e errs IH]; intros done.
  - cbn. now destruct (buf done).
  - cbn [fold_left hd_error]. destruct (IH (tryQueueError e done)) as [Hb Hc].
    rewrite Hb, Hc. unfold tryQueueError.
    destruct (buf done) eqn:Hheld; cbn; rewrite ?Hheld; now split.
Qed.

(** ** The outbound body streamer: how the loop ends *)

Section StreamerEnds.

Context {R : Type} `{Reader R}.

Lemma sends_of_app (tr1 tr2 : list sevent) :
  sends_of (tr1 ++ tr2) = sends_of tr1 ++ sends_of tr2.
Proof.
  induction tr1 as [|ev tr1 IH]; [reflexivity|].
  destruct ev; cbn; now rewrite IH.
Qed.

(** The sends of one run of the loop, iteration by iteration. *)
Lemma sendLoop_sends (bufLen fuel : nat) (r : R) (sends : list error) :
  let data := fst (fst (Read r bufLen)) in
  let err := snd (fst (Read r bufLen)) in
  let frame := frame_for_read (data, err) in
  let sendErr := hd nil_error sends in
  sends_of (fst (sendLoop bufLen (S fuel) r sends))
  = (frame, sendErr)
      :: (if negb (is_nil sendErr) || Eof frame then []
          else sends_of (fst (sendLoop bufLen fuel (snd (Read r bufLen)) (tl sends))))
  /\ snd (sendLoop bufLen (S fuel) r sends)
     = (if negb (is_nil sendErr) || Eof frame then true
        else snd (sendLoop bufLen fuel (snd (Read r bufLen)) (tl sends))).
Proof.
  cbv zeta. rewrite sendLoop_step. cbv zeta.
  set (data := fst (fst (Read r bufLen))).
  set (err := snd (fst (Read r bufLen))).
  destruct (negb (is_nil err) && negb (is_EOF err));
    destruct (negb (is_nil (hd nil_error sends)));
    try destruct (negb (is_EOF (hd nil_error sends)));
    try destruct (Eof (frame_for_read (data, err)));
    cbn [fst snd app sends_of orb]; rewrite ?sends_of_app; now split.
Qed.

Lemma sendLoop_ends (bufLen fuel : nat) :
  forall (r : R) (sends : list error),
    let run := sendLoop bufLen fuel r sends in
    Forall goes_on (removelast (sends_of (fst run))) /\
    (snd run = false -> Forall goes_on (sends_of (fst run))) /\
    (snd run = true ->
     exists pre f e,
       sends_of (fst run) = pre ++ [(f, e)] /\ (e <> nil_error \/ Eof f = true)).
Proof.
  induction fuel as [|fuel IH]; intros r sends; cbv zeta.
  - cbn. repeat split; try constructor. discriminate.
  - destruct (sendLoop_sends bufLen fuel r sends) as [Hs Hr]. cbv zeta in Hs, Hr.
    rewrite Hs, Hr. clear Hs Hr.
    set (frame := frame_for_read _).
    destruct (IH (snd (Read r bufLen)) (tl sends)) as (IH1 & IH2 & IH3).
    cbv zeta in IH1, IH2, IH3.
    destruct (hd nil_error sends) as [se|] eqn:Hse; cbn [is_nil negb orb].
    + repeat split; [constructor|discriminate|]. intros _.
      exists [], frame, (Some se). split; [reflexivity|]. left. discriminate.
    + destruct (Eof frame) eqn:Hf.
      * repeat split; [constructor|discriminate|]. intros _.
        exists [], frame, nil_error. split; [reflexivity|]. now right.
      * assert (Hgo : goes_on (frame, nil_error)) by now split.
        split; [|split].
        -- destruct (sends_of (fst (sendLoop bufLen fuel (snd (Read r bufLen))
                                      (tl sends)))) as [|fe l] eqn:Hl;
             [constructor|].
           cbn [removelast]. constructor; [exact Hgo|exact IH1].
        -- intros Hret. constructor; [exact Hgo|now apply IH2].
        -- intros Hret. destruct (IH3 Hret) as (pre & f & e & Heq & Hend).
           exists ((frame, nil_error) :: pre), f, e. rewrite Heq. now split.
Qed.

(** X13: the streamer goes on only after a send that succeeded with a frame
    that is not final.  So in every run each frame but the last was sent
    successfully without the end-of-stream flag: there is at most one
    end-of-stream frame and at most one failed send, and either one is the
    last thing handed to the stream. *)
Theorem sendToRunner_only_last_send_ends (fuel : nat) (r : R) (sends : list error) :
  Forall (fun fe => snd fe = nil_error /\ Eof (fst fe) = false)
    (removelast (sends_of (fst (sendToRunner fuel r sends)))).
Proof. apply (sendLoop_ends (Z.to_nat MaxDataChunk) fuel r sends). Qed.

(** X14: when the streamer has returned, the last frame it handed to the
    stream either failed to send or carries the end-of-stream flag: unless
    the stream itself broke, the worker is sent a terminating frame. *)
Theorem sendToRunner_terminating_frame (fuel : nat) (r : R) (sends : list error) :
  snd (sendToRunner fuel r sends) = true ->
  exists pre f e,
    sends_of (fst (sendToRunner fuel r sends)) = pre ++ [(f, e)] /\
    (e <> nil_error \/ Eof f = true).
Proof. apply (sendLoop_ends (Z.to_nat MaxDataChunk) fuel r sends). Qed.

Lemma sendLoop_frame_size (bufLen fuel : nat) :
  (forall (r : R) (n : nat), List.length (fst (fst (Read r n))) <= n) ->
  forall (r : R) (sends : list error),
    Forall (fun f => List.length (Data f) <= bufLen)
      (frames_of (fst (sendLoop bufLen fuel r sends))).
Proof.
  intros Hread. induction fuel as [|fuel IH]; intros r sends; [constructor|].
  rewrite sendLoop_frames_follow_reads, sendLoop_step. cbv zeta.
  set (data := fst (fst (Read r bufLen))).
  set (err := snd (fst (Read r bufLen))).
  assert (Hdata : List.length (Data (frame_for_read (data, err))) <= bufLen)
    by apply Hread.
  specialize (IH (snd (Read r bufLen)) (tl sends)).
  rewrite sendLoop_frames_follow_reads in IH.
  destruct (negb (is_nil err) && negb (is_EOF err));
    destruct (negb (is_nil (hd nil_error sends)));
    try destruct (negb (is_EOF (hd nil_error sends)));
    try destruct (Eof (frame_for_read (data, err)));
    cbn [fst app reads_of map]; rewrite ?reads_of_app; cbn [reads_of map app];
    repeat (constructor; try assumption).
Qed.

(** X15: over a body that keeps the [io.Reader] contract (a read stores no
    more bytes than the buffer holds) no frame carries more than
    [MaxDataChunk] bytes. *)
Theorem sendToRunner_frame_size (fuel : nat) (r : R) (sends : list error) :
  (forall (r' : R) (n : nat), List.length (fst (fst (Read r' n))) <= n) ->
  Forall (fun f => Z.of_nat (List.length (Data f)) <= MaxDataChunk)%Z
    (frames_of (fst (sendToRunner fuel r sends))).
Proof.
  intros Hread.
  pose proof (sendLoop_frame_size (Z.to_nat MaxDataChunk) fuel Hread r sends) as Hall.
  unfold sendToRunner. eapply Forall_impl; [|exact Hall].
  intros f Hf. cbv beta in Hf. unfold MaxDataChunk in *. lia.
Qed.

End StreamerEnds.

Lemma bytesReader_contract (s : bytes) (n : nat) :
  List.length (fst (fst (Read s n))) <= n.
Proof.
  destruct s as [|b s]; cbn [Read bytesReader bytesReader_Read fst];
    [cbn; lia|]. rewrite length_firstn. lia.
Qed.

Lemma sendToRunner_terminating_frame_witness :
  exists pre f e,
    sends_of (fst (sendToRunner 2 [Byte.x61; Byte.x62] []))
    = pre ++ [(f, e)] /\ (e <> nil_error \/ Eof f = true).
Proof.
  apply (sendToRunner_terminating_frame 2 [Byte.x61; Byte.x62] []).
  reflexivity.
Defined.

Lemma sendToRunner_frame_size_witness :
  Forall (fun f => Z.of_nat (List.length (Data f)) <= MaxDataChunk)%Z
    (frames_of (fst (sendToRunner 2 [Byte.x61; Byte.x62] []))).
Proof.
  apply (sendToRunner_frame_size 2 [Byte.x61; Byte.x62] []).
  exact bytesReader_contract.
Defined.

(** ** The inbound response receiver: what reaches the channel and the sink *)

Lemma posts_of_app (tr1 tr2 : list revent) :
  posts_of (tr1 ++ tr2) = posts_of tr1 ++ posts_of tr2.
Proof.
  induction tr1 as [|ev tr1 IH]; [reflexivity|].
  destruct ev; cbn; now rewrite IH.
Qed.

Lemma short_writes_of_app (tr1 tr2 : list revent) :
  short_writes_of (tr1 ++ tr2) = short_writes_of tr1 ++ short_writes_of tr2.
Proof.
  induction tr1 as [|ev tr1 IH]; [reflexivity|].
  destruct ev as [| | |d n err| | | |]; cbn; rewrite ?IH; try reflexivity.
  now destruct (n =? Z.of_nat (List.length d))%Z.
Qed.

Lemma posts_of_map_EvStat (l : list stat_event) : posts_of (map EvStat l) = [].
Proof. induction l; auto. Qed.

Lemma short_writes_of_map_EvStat (l : list stat_event) :
  short_writes_of (map EvStat l) = [].
Proof. induction l; auto. Qed.

Lemma quiet_no_writes (tr : list revent) :
  quiet tr -> short_writes_of tr = [] /\ writes_of tr = [].
Proof.
  induction 1 as [|e tr [Hw Hp] _ [IHs IHw]]; [now split|].
  destruct e; cbn; now split.
Qed.

Lemma first_post_only_false_app (ps1 ps2 : list (error * bool)) :
  first_post_only false ps1 -> first_post_only false ps2 ->
  first_post_only false (ps1 ++ ps2).
Proof.
  induction ps1 as [|[e a] ps1 IH]; intros H1 H2; [exact H2|].
  destruct H1 as [Ha H1]. split; [exact Ha|now apply IH].
Qed.

Lemma tryQueueError_buf (e : error) (done : chan) :
  buf (tryQueueError e done)
  = match buf done with Some v => Some v | None => Some e end /\
  closed (tryQueueError e done) = closed done /\
  queue_accepts (tryQueueError e done) = false.
Proof.
  unfold tryQueueError, queue_accepts.
  destruct (buf done) eqn:Hheld; cbn; rewrite ?Hheld; now repeat split.
Qed.

(** What one call of [tryQueueError] followed by a run [ps] of posts leaves
    in the slot. *)
Lemma post_then (e : error) (done done' : chan) (ps : list (error * bool)) :
  first_post_only (queue_accepts (tryQueueError e done)) ps ->
  buf done' = match buf (tryQueueError e done) with
              | Some v => Some v
              | None => hd_error (map fst ps)
              end ->
  first_post_only (queue_accepts done) ((e, queue_accepts done) :: ps) /\
  buf done' = match buf done with
              | Some v => Some v
              | None => hd_error (map fst ((e, queue_accepts done) :: ps))
              end.
Proof.
  destruct (tryQueueError_buf e done) as (Hb & _ & Hq). rewrite Hq, Hb.
  intros Hps Hbuf. split; [now split|]. rewrite Hbuf.
  now destruct (buf done).
Qed.

Section ReceiverSignal.

Context {Time : Type} `{Clock Time} {W : Type} `{ResponseWriter W}.

Lemma set_headers_silent (w : W) (hs : list (string * string)) :
  posts_of (fst (set_headers w hs)) = [] /\
  short_writes_of (fst (set_headers w hs)) = [] /\
  writes_of (fst (set_headers w hs)) = [] /\
  status_codes_of (fst (set_headers w hs)) = [] /\
  stats_of (fst (set_headers w hs)) = [] /\
  finish_logs_of (fst (set_headers w hs)) = [] /\
  header_sets_of (fst (set_headers w hs)) = hs /\
  count is_Close (fst (set_headers w hs)) = 0.
Proof.
  revert w. induction hs as [|[k v] hs IH]; intros w; [now repeat split|].
  cbn [set_headers]. specialize (IH (Header_Set w k v)).
  destruct (set_headers (Header_Set w k v) hs) as [tr w']. cbn [fst] in *.
  destruct IH as (? & ? & ? & ? & ? & ? & Hhs & ?).
  cbn [header_sets_of]. rewrite Hhs. now repeat split.
Qed.

Lemma drainLoop_posts (final : error_val) :
  forall msgs done,
    let run := drainLoop msgs final done in
    first_post_only (queue_accepts done) (posts_of (fst run)) /\
    buf (snd run) = match buf done with
                    | Some v => Some v
                    | None => hd_error (map fst (posts_of (fst run)))
                    end /\
    closed (snd run) = closed done /\
    map fst (posts_of (fst run)) = drain_posts msgs final.
Proof.
  induction msgs as [|m rest IH]; intros done; cbv zeta.
  - cbn [drainLoop drain_posts].
    destruct (tryQueueError_buf (Some final) done) as (Hb & Hc & Hq).
    destruct final; cbn [fst snd posts_of queue map hd_error first_post_only];
      rewrite ?Hb, ?Hc; repeat split; now destruct (buf done).
  - cbn [drainLoop drain_posts].
    specialize (IH (tryQueueError (Some ErrorPureRunnerNoEOF) done)).
    cbv zeta in IH.
    destruct (drainLoop rest final _) as [tr done']. cbn [fst snd] in *.
    destruct IH as (Hf & Hb & Hc & Hp).
    destruct (post_then _ _ _ _ Hf Hb) as [Hf' Hb'].
    destruct (tryQueueError_buf (Some ErrorPureRunnerNoEOF) done) as (_ & Hc' & _).
    unfold queue. cbn [posts_of].
    split; [exact Hf'|]. split; [exact Hb'|]. split; [congruence|].
    cbn [map fst]. now rewrite Hp.
Qed.


Ltac run_rest IH :=
  match goal with
  | |- context [DataLoop ?rest ?final ?st] =>
      let IHst := fresh "IHst" in
      pose proof (IH st) as IHst; cbv zeta in IHst;
      destruct (DataLoop rest final st) as [? ?]; cbn [fst snd] in IHst |- *
  end.

Lemma DataLoop_posts (final : error_val) :
  forall msgs st,
    let run := DataLoop msgs final st in
    first_post_only (queue_accepts (rs_done st)) (posts_of (fst run)) /\
    buf (rs_done (snd run))
    = match buf (rs_done st) with
      | Some v => Some v
      | None => hd_error (map fst (posts_of (fst run)))
      end /\
    closed (rs_done (snd run)) = closed (rs_done st) /\
    map fst (posts_of (fst run))
    = short_writes_of (fst run) ++ stream_posts msgs final.
Proof.
  induction msgs as [|msg rest IH]; intros st; cbv zeta.
  - cbn [DataLoop fst snd rs_done posts_of queue map short_writes_of
         stream_posts app first_post_only hd_error].
    destruct (tryQueueError_buf (Some final) (rs_done st)) as (Hb & Hc & _).
    rewrite Hb, Hc. now repeat split.
  - cbn [DataLoop stream_posts]. destruct msg as [[meta|]|body|body|].
    + destruct (set_headers_silent (rs_w st) (Headers meta))
        as (Hp & Hs & _).
      destruct (set_headers (rs_w st) (Headers meta)) as [trh w1].
      cbn [fst] in Hp, Hs.
      destruct (StatusCode meta >? 0)%Z; run_rest IH;
        cbn [posts_of short_writes_of];
        rewrite posts_of_app, short_writes_of_app, Hp, Hs;
        cbn [app posts_of short_writes_of]; exact IHst.
    + run_rest IH. exact IHst.
    + destruct (rs_isPartialWrite st); cbn [negb]; [run_rest IH; exact IHst|].
      destruct (Write (rs_w st) (Data body)) as [[n err] w1].
      destruct (n =? Z.of_nat (List.length (Data body)))%Z eqn:Hn; cbn [negb].
      * run_rest IH. cbn [posts_of short_writes_of]. rewrite Hn. exact IHst.
      * run_rest IH. cbn [rs_done] in IHst.
        destruct IHst as (Hf & Hb & Hc & Hp).
        destruct (post_then _ _ _ _ Hf Hb) as [Hf' Hb'].
        destruct (tryQueueError_buf
                    match err with
                    | Some _ => err
                    | None => Some ErrShortWrite
                    end (rs_done st)) as (_ & Hc' & _).
        unfold queue. cbn [posts_of short_writes_of]. rewrite Hn.
        split; [exact Hf'|]. split; [exact Hb'|]. split; [congruence|].
        cbn [map fst app]. rewrite Hp. reflexivity.
    + match goal with |- context [drainLoop rest final ?d] =>
        pose proof (drainLoop_posts final rest d) as Hd;
        pose proof (drainLoop_quiet final rest d) as Hq;
        cbv zeta in Hd;
        destruct (drainLoop rest final d) as [tr done2] end.
      cbn [fst snd rs_done] in *.
      apply quiet_no_writes in Hq. destruct Hq as [Hsw _].
      destruct Hd as (Hf & Hb & Hc & Hp).
      cbn [posts_of short_writes_of].
      rewrite !posts_of_app, !short_writes_of_app, posts_of_map_EvStat,
        short_writes_of_map_EvStat, Hsw.
      destruct (Success body); cbn [negb app posts_of short_writes_of queue] in *.
      * rewrite Hp in *. now repeat split.
      * destruct (post_then _ _ _ _ Hf Hb) as [Hf' Hb'].
        destruct (tryQueueError_buf (parseError body) (rs_done st))
          as (_ & Hc' & _).
        split; [exact Hf'|]. split; [exact Hb'|]. split; [congruence|].
        cbn [map fst]. now rewrite Hp.
    + run_rest IH. exact IHst.
Qed.


Lemma stream_posts_Finished (final : error_val) :
  forall msgs,
    stream_posts msgs final
    = match first_Finished msgs with
      | Some f =>
          (if Success f then [] else [parseError f])
            ++ drain_posts (after_Finished msgs) final
      | None => [Some final]
      end.
Proof.
  induction msgs as [|msg rest IH]; [reflexivity|].
  destruct msg as [[meta|]|body|body|]; cbn; auto.
Qed.

(** The posts of a whole run over a fresh channel, and what the channel
    holds in the end. *)
Lemma receiveFromRunner_posts (w : W) (msgs : list RunnerMsg) (final : error_val) :
  let run := receiveFromRunner w msgs final make_chan in
  first_post_only true (posts_of (fst run)) /\
  buf (snd (snd run)) = hd_error (map fst (posts_of (fst run))) /\
  chan_recv (snd (snd run)) = Some (terminal_signal (snd (snd run))) /\
  map fst (posts_of (fst run))
  = short_writes_of (fst run) ++ stream_posts msgs final.
Proof.
  cbv zeta.
  destruct (receiveFromRunner_closes_done w msgs final make_chan) as [_ Hrecv].
  unfold receiveFromRunner in *.
  pose proof (DataLoop_posts final msgs
    {| rs_w := w; rs_done := make_chan; rs_statusCode := 0;
       rs_isPartialWrite := false |}) as Hloop.
  cbv zeta in Hloop.
  destruct (DataLoop msgs final _) as [tr st]. cbn [fst snd rs_done] in *.
  destruct Hloop as (Hf & Hb & _ & Hp).
  rewrite posts_of_app, short_writes_of_app, !app_nil_r.
  repeat split; assumption.
Qed.

Lemma first_post_only_false_flags (ps : list (error * bool)) :
  first_post_only false ps -> Forall (fun p => snd p = false) ps.
Proof.
  induction ps as [|[e a] ps IH]; intros Hps; [constructor|].
  destruct Hps as [Ha Hps]. constructor; [exact Ha|now apply IH].
Qed.

(** A post the channel took is the first post of its run. *)
Lemma accepted_post_is_first (ps1 ps2 : list (error * bool)) (e : error) :
  first_post_only true (ps1 ++ (e, true) :: ps2) -> ps1 = [].
Proof.
  destruct ps1 as [|[e0 a0] ps1]; [reflexivity|].
  intros [_ Hrest]. apply first_post_only_false_flags in Hrest.
  apply Forall_app in Hrest. destruct Hrest as [_ Hrest].
  apply Forall_inv in Hrest. discriminate Hrest.
Qed.

(** C6: when a sink write takes fewer bytes than it was given, the post of
    the short-write error (the writer's own error, or [io.ErrShortWrite]
    when it gave none) follows at once and the channel takes it: when the
    receiver returns, the channel holds that error and a receive on it
    yields it.  No sink write comes after the short one; its post is the
    only short-write post of the exchange; and the receiver goes on
    receiving until it has drawn every message and the closing error from
    the stream. *)
Theorem receiveFromRunner_partial_write_latch (w : W) (msgs : list RunnerMsg)
  (final : error_val) (tr1 tr2 : list revent) (data : bytes) (n : Z)
  (err : error) :
  fst (receiveFromRunner w msgs final make_chan)
  = tr1 ++ EvWrite data n err :: tr2 ->
  (n < Z.of_nat (List.length data))%Z ->
  exists tr3,
    tr2 = EvQueue QShortWrite (short_write_error err) true :: tr3 /\
    count is_Write tr3 = 0 /\
    count is_short_write_post (fst (receiveFromRunner w msgs final make_chan)) = 1 /\
    count is_Recv tr1 + count is_Recv tr3 = S (List.length msgs) /\
    buf (snd (snd (receiveFromRunner w msgs final make_chan)))
    = Some (short_write_error err) /\
    chan_recv (snd (snd (receiveFromRunner w msgs final make_chan)))
    = Some (short_write_error err).
Proof.
  intros Htrace Hshort.
  destruct (receiveFromRunner_latch_trace w msgs final tr1 tr2 data n err
              Htrace Hshort) as (tr3 & Htr2 & Hw & Hone & Hrecvs).
  exists tr3. repeat (split; [assumption|]).
  destruct (receiveFromRunner_posts w msgs final) as (Hflags & Hbuf & Hrecv & _).
  cbv zeta in Hflags, Hbuf, Hrecv.
  assert (Hfirst : hd_error (map fst (posts_of
                     (fst (receiveFromRunner w msgs final make_chan))))
                   = Some (short_write_error err)).
  { rewrite Htrace, Htr2 in Hflags |- *.
    rewrite posts_of_app in Hflags |- *.
    cbn [posts_of] in Hflags |- *.
    apply accepted_post_is_first in Hflags. now rewrite Hflags. }
  rewrite Hfirst in Hbuf. split; [exact Hbuf|].
  rewrite Hrecv. unfold terminal_signal. now rewrite Hbuf.
Qed.

Lemma drawn_after_first (k : nat) :
  forall (done : chan) (posts : list error),
    closed done = false ->
    drawn_after k done posts
    = match buf done with
      | Some v => v
      | None => hd nil_error posts
      end.
Proof.
  induction k as [|k IH]; intros done posts Hopen.
  - cbn [drawn_after]. unfold chan_take. rewrite Hopen.
    now destruct (buf done).
  - destruct posts as [|e rest]; cbn [drawn_after hd].
    + unfold chan_take, close. cbn [buf closed]. now destruct (buf done).
    + destruct (tryQueueError_buf e done) as (Hb & Hc & _).
      rewrite IH by congruence. rewrite Hb. now destruct (buf done).
Qed.

(** X16: the first terminal error is the one that counts.  The first value
    the receiver posts always finds the slot free, and at whatever moment of
    the receiver's run the orchestrator receives from the channel (before
    any post, between two posts, or after the close) it draws the first
    value the receiver posted, or nil when the receiver posted nothing: the
    value the channel holds when the receiver has run alone. *)
Theorem receiveFromRunner_first_post_wins (w : W) (msgs : list RunnerMsg)
  (final : error_val) (k : nat) :
  let run := receiveFromRunner w msgs final make_chan in
  drawn_after k make_chan (map fst (posts_of (fst run)))
  = hd nil_error (map fst (posts_of (fst run))) /\
  drawn_after k make_chan (map fst (posts_of (fst run)))
  = terminal_signal (snd (snd run)) /\
  hd true (map snd (posts_of (fst run))) = true.
Proof.
  cbv zeta.
  destruct (receiveFromRunner_posts w msgs final) as (Hflags & Hbuf & _).
  cbv zeta in Hflags, Hbuf.
  rewrite (drawn_after_first k make_chan _ eq_refl). cbn [buf make_chan].
  unfold terminal_signal. rewrite Hbuf.
  destruct (posts_of (fst (receiveFromRunner w msgs final make_chan)))
    as [|[e a] ps]; [now repeat split|].
  destruct Hflags as [Ha _]. now repeat split.
Qed.

(** X17: the normal end.  When the stream carries a successful Finished
    message followed by nothing but the ordinary end-of-stream, and no sink
    write was short, the receiver posts nothing at all, and the closed
    channel yields nil: the exchange ends as a success. *)
Theorem receiveFromRunner_success (w : W) (msgs : list RunnerMsg)
  (f : CallFinished) :
  first_Finished msgs = Some f ->
  Success f = true ->
  after_Finished msgs = [] ->
  short_writes_of (fst (receiveFromRunner w msgs EOF make_chan)) = [] ->
  posts_of (fst (receiveFromRunner w msgs EOF make_chan)) = [] /\
  chan_recv (snd (snd (receiveFromRunner w msgs EOF make_chan))) = Some nil_error.
Proof.
  intros Hfin Hok Hafter Hfull.
  destruct (receiveFromRunner_posts w msgs EOF) as (_ & Hb & Hrecv & Hp).
  rewrite Hfull, stream_posts_Finished, Hfin, Hok, Hafter in Hp. cbn in Hp.
  apply map_eq_nil in Hp. split; [exact Hp|].
  rewrite Hrecv. unfold terminal_signal. now rewrite Hb, Hp.
Qed.

(** X18: a failure reported by the worker.  When the first Finished message
    reports a failure and no sink write was short before it, the terminal
    signal is the error built from that message, whatever follows it on the
    stream; the orchestrator then answers not committed with the server-busy
    sentinel for error code 503 and committed with that error for any other
    code. *)
Theorem receiveFromRunner_failure (w : W) (msgs : list RunnerMsg)
  (final : error_val) (f : CallFinished) (call : RunnerCall) :
  first_Finished msgs = Some f ->
  Success f = false ->
  short_writes_of (fst (receiveFromRunner w msgs final make_chan)) = [] ->
  snd (Model_json call) = nil_error ->
  chan_recv (snd (snd (receiveFromRunner w msgs final make_chan)))
  = Some (parseError f) /\
  fst (TryExec (exchange_ending_with (parseError f)) call)
  = (if (ErrorCode f =? 503)%Z
     then (false, Some models.ErrCallTimeoutServerBusy)
     else (true, parseError f)).
Proof.
  intros Hfin Hfail Hfull Hjson.
  destruct (receiveFromRunner_posts w msgs final) as (_ & Hb & Hrecv & Hp).
  rewrite Hfull, stream_posts_Finished, Hfin, Hfail in Hp. cbn [app] in Hp.
  split.
  - rewrite Hrecv. unfold terminal_signal. rewrite Hb, Hp. reflexivity.
  - destruct (Model_json call) as [json e] eqn:Hcall. cbn [snd] in Hjson. subst e.
    rewrite (TryExec_engaged (exchange_ending_with (parseError f)) call json
               eq_refl Hcall eq_refl).
    cbn [SendTry Race exchange_ending_with nil_error].
    destruct (isTooBusy (parseError f)) eqn:Hbusy.
    + apply isTooBusy_parseError in Hbusy. destruct Hbusy as [_ ->]. reflexivity.
    + destruct (Z.eqb_spec (ErrorCode f) 503) as [Hc|Hc]; [|reflexivity].
      assert (Hb' : isTooBusy (parseError f) = true)
        by (apply isTooBusy_parseError; now split).
      congruence.
Qed.

(** X19: a stream that ends before any Finished message.  With no short
    write, the terminal signal is the error [Recv] gave, and that holds for
    the ordinary end-of-stream too: a stream closed without a Finished
    message is reported as [io.EOF], not as a success. *)
Theorem receiveFromRunner_premature_end (w : W) (msgs : list RunnerMsg)
  (final : error_val) :
  first_Finished msgs = None ->
  short_writes_of (fst (receiveFromRunner w msgs final make_chan)) = [] ->
  chan_recv (snd (snd (receiveFromRunner w msgs final make_chan)))
  = Some (Some final).
Proof.
  intros Hfin Hfull.
  destruct (receiveFromRunner_posts w msgs final) as (_ & Hb & Hrecv & Hp).
  rewrite Hfull, stream_posts_Finished, Hfin in Hp. cbn [app] in Hp.
  rewrite Hrecv. unfold terminal_signal. now rewrite Hb, Hp.
Qed.

(** X20: after a successful Finished message the stream must end at once.
    With no short write, any further message makes the terminal signal
    [ErrorPureRunnerNoEOF], and a closing error other than the ordinary
    end-of-stream becomes the terminal signal when no message came before
    it: either way the exchange no longer ends as a success. *)
Theorem receiveFromRunner_missing_EOF (w : W) (msgs : list RunnerMsg)
  (final : error_val) (f : CallFinished) :
  first_Finished msgs = Some f ->
  Success f = true ->
  short_writes_of (fst (receiveFromRunner w msgs final make_chan)) = [] ->
  (after_Finished msgs <> [] ->
   chan_recv (snd (snd (receiveFromRunner w msgs final make_chan)))
   = Some (Some ErrorPureRunnerNoEOF)) /\
  (after_Finished msgs = [] -> final <> EOF ->
   chan_recv (snd (snd (receiveFromRunner w msgs final make_chan)))
   = Some (Some final)).
Proof.
  intros Hfin Hok Hfull.
  destruct (receiveFromRunner_posts w msgs final) as (_ & Hb & Hrecv & Hp).
  rewrite Hfull, stream_posts_Finished, Hfin, Hok in Hp. cbn [app] in Hp.
  rewrite Hrecv. unfold terminal_signal. rewrite Hb, Hp. split.
  - intros Hmore. destruct (after_Finished msgs); [now elim Hmore|reflexivity].
  - intros -> Hne. destruct final; try reflexivity. now elim Hne.
Qed.

(** X21: a short write decides the exchange.  When a sink write was short,
    its error (the writer's own, or [io.ErrShortWrite]) is the terminal
    signal, whatever the stream brings afterwards, a Finished message that
    reports success included. *)
Theorem receiveFromRunner_short_write_signal (w : W) (msgs : list RunnerMsg)
  (final : error_val) (e : error) (others : list error) :
  short_writes_of (fst (receiveFromRunner w msgs final make_chan)) = e :: others ->
  chan_recv (snd (snd (receiveFromRunner w msgs final make_chan))) = Some e.
Proof.
  intros Hshort.
  destruct (receiveFromRunner_posts w msgs final) as (_ & Hb & Hrecv & Hp).
  rewrite Hshort in Hp. cbn [app] in Hp.
  rewrite Hrecv. unfold terminal_signal. now rewrite Hb, Hp.
Qed.

End ReceiverSignal.

Lemma receiveFromRunner_partial_write_latch_witness :
  exists tr3,
    [EvQueue QShortWrite (Some ErrShortWrite) true; EvRecv; EvRecv;
     EvLogCallFinish false 0; EvStat (StatSchedLatency 1);
     EvStat (StatExecLatency 5); EvStat (AddUserExecutionTime 5); EvRecv; EvClose]
    = EvQueue QShortWrite (short_write_error nil_error) true :: tr3 /\
    count is_Write tr3 = 0 /\
    count is_short_write_post
      (fst (receiveFromRunner (empty_sink 1) two_data_frames EOF make_chan)) = 1 /\
    count is_Recv [EvRecv] + count is_Recv tr3 = 4 /\
    buf (snd (snd (receiveFromRunner (empty_sink 1) two_data_frames EOF make_chan)))
    = Some (short_write_error nil_error) /\
    chan_recv
      (snd (snd (receiveFromRunner (empty_sink 1) two_data_frames EOF make_chan)))
    = Some (short_write_error nil_error).
Proof.
  apply (receiveFromRunner_partial_write_latch (empty_sink 1) two_data_frames EOF
           [EvRecv] _ [Byte.x61; Byte.x62] 1%Z nil_error).
  - reflexivity.
  - cbn. lia.
Defined.

(** ** The inbound response receiver: what reaches the sink *)

Lemma writes_of_app (tr1 tr2 : list revent) :
  writes_of (tr1 ++ tr2) = writes_of tr1 ++ writes_of tr2.
Proof.
  induction tr1 as [|ev tr1 IH]; [reflexivity|].
  destruct ev; cbn; now rewrite IH.
Qed.

Lemma header_sets_of_app (tr1 tr2 : list revent) :
  header_sets_of (tr1 ++ tr2) = header_sets_of tr1 ++ header_sets_of tr2.
Proof.
  induction tr1 as [|ev tr1 IH]; [reflexivity|].
  destruct ev; cbn; now rewrite IH.
Qed.

Lemma status_codes_of_app (tr1 tr2 : list revent) :
  status_codes_of (tr1 ++ tr2) = status_codes_of tr1 ++ status_codes_of tr2.
Proof.
  induction tr1 as [|ev tr1 IH]; [reflexivity|].
  destruct ev; cbn; now rewrite IH.
Qed.

Lemma stats_of_app (tr1 tr2 : list revent) :
  stats_of (tr1 ++ tr2) = stats_of tr1 ++ stats_of tr2.
Proof.
  induction tr1 as [|ev tr1 IH]; [reflexivity|].
  destruct ev; cbn; now rewrite IH.
Qed.

Lemma finish_logs_of_app (tr1 tr2 : list revent) :
  finish_logs_of (tr1 ++ tr2) = finish_logs_of tr1 ++ finish_logs_of tr2.
Proof.
  induction tr1 as [|ev tr1 IH]; [reflexivity|].
  destruct ev; cbn; now rewrite IH.
Qed.

Lemma map_EvStat_silent (l : list stat_event) :
  header_sets_of (map EvStat l) = [] /\
  status_codes_of (map EvStat l) = [] /\
  stats_of (map EvStat l) = l /\
  finish_logs_of (map EvStat l) = [] /\
  count is_Close (map EvStat l) = 0.
Proof.
  induction l as [|s l (Hh & Hc & Hs & Hl & Hx)]; [now repeat split|].
  cbn [map header_sets_of status_codes_of stats_of finish_logs_of].
  rewrite count_cons, Hh, Hc, Hs, Hl, Hx. now repeat split.
Qed.

Lemma last_cons_default (c d : Z) (l : list Z) : last (c :: l) d = last l c.
Proof.
  revert c d. induction l as [|x l IH]; intros c d; [reflexivity|].
  change (last (c :: x :: l) d) with (last (x :: l) d).
  now rewrite !IH.
Qed.

Section ReceiverSink.

Context {Time : Type} `{Clock Time} {W : Type} `{ResponseWriter W}.

Ltac run_rest IH :=
  match goal with
  | |- context [DataLoop ?rest ?final ?st] =>
      let IHst := fresh "IHst" in
      pose proof (IH st) as IHst; cbv zeta in IHst;
      destruct (DataLoop rest final st) as [? ?]; cbn [fst snd] in IHst |- *
  end.

Lemma drainLoop_silent (final : error_val) :
  forall msgs done,
    header_sets_of (fst (drainLoop msgs final done)) = [] /\
    status_codes_of (fst (drainLoop msgs final done)) = [] /\
    stats_of (fst (drainLoop msgs final done)) = [] /\
    finish_logs_of (fst (drainLoop msgs final done)) = [] /\
    count is_Close (fst (drainLoop msgs final done)) = 0.
Proof.
  induction msgs as [|m rest IH]; intros done.
  - cbn [drainLoop]. now destruct final.
  - cbn [drainLoop].
    specialize (IH (tryQueueError (Some ErrorPureRunnerNoEOF) done)).
    destruct (drainLoop rest final _) as [tr done']. cbn [fst] in *.
    unfold queue. cbn [header_sets_of status_codes_of stats_of finish_logs_of].
    now rewrite !count_cons.
Qed.

(** The calls the first loop makes on the sink and the records it keeps,
    read off the stream. *)
Lemma DataLoop_sink_calls (final : error_val) :
  forall msgs st,
    let tr := fst (DataLoop msgs final st) in
    header_sets_of tr = http_headers (before_Finished msgs) /\
    status_codes_of tr = positive_statuses (before_Finished msgs) /\
    stats_of tr = match first_Finished msgs with
                  | Some f => recordFinishStats f
                  | None => []
                  end /\
    finish_logs_of tr
    = match first_Finished msgs with
      | Some f =>
          [(logCallFinish_warns f,
            last (positive_statuses (before_Finished msgs)) (rs_statusCode st))]
      | None => []
      end /\
    count is_Close tr = 0.
Proof.
  induction msgs as [|msg rest IH]; intros st; cbv zeta.
  - cbn. now repeat split.
  - cbn [DataLoop before_Finished first_Finished].
    destruct msg as [[meta|]|body|body|];
      cbn [is_Finished http_headers positive_statuses first_Finished].
    + destruct (set_headers_silent (rs_w st) (Headers meta))
        as (_ & _ & _ & Hc & Hs & Hl & Hh & Hx).
      destruct (set_headers (rs_w st) (Headers meta)) as [trh w1].
      cbn [fst] in Hc, Hs, Hl, Hh, Hx.
      destruct (StatusCode meta >? 0)%Z; run_rest IH;
        cbn [header_sets_of status_codes_of stats_of finish_logs_of];
        rewrite count_cons, header_sets_of_app, status_codes_of_app, stats_of_app,
          finish_logs_of_app, count_app, ?count_cons, Hc, Hs, Hl, Hh, Hx;
        cbn [app header_sets_of status_codes_of stats_of finish_logs_of
             is_Close rs_statusCode Nat.add] in *;
        destruct IHst as (-> & -> & -> & -> & ->);
        rewrite ?last_cons_default; now repeat split.
    + run_rest IH. now rewrite count_cons.
    + destruct (negb (rs_isPartialWrite st)).
      * destruct (Write (rs_w st) (Data body)) as [[n err] w1].
        destruct (negb (n =? Z.of_nat (List.length (Data body)))%Z); run_rest IH;
          unfold queue; now rewrite !count_cons.
      * run_rest IH. now rewrite count_cons.
    + match goal with |- context [drainLoop rest final ?d] =>
        pose proof (drainLoop_silent final rest d) as Hd;
        destruct (drainLoop rest final d) as [tr done2] end.
      cbn [fst] in *. destruct Hd as (Hh & Hc & Hs & Hl & Hx).
      destruct (map_EvStat_silent (recordFinishStats body))
        as (Hh' & Hc' & Hs' & Hl' & Hx').
      cbn [header_sets_of status_codes_of stats_of finish_logs_of].
      rewrite !count_cons, !header_sets_of_app, !status_codes_of_app,
        !stats_of_app, !finish_logs_of_app, !count_app,
        Hh, Hc, Hs, Hl, Hx, Hh', Hc', Hs', Hl', Hx'.
      destruct (negb (Success body)); unfold queue; cbn; rewrite ?app_nil_r;
        now repeat split.
    + run_rest IH. now rewrite count_cons.
Qed.

Lemma DataLoop_writes (final : error_val) :
  forall msgs st,
    rs_isPartialWrite st = false ->
    exists unwritten,
      data_payloads (before_Finished msgs)
      = writes_of (fst (DataLoop msgs final st)) ++ unwritten /\
      (short_writes_of (fst (DataLoop msgs final st)) = [] -> unwritten = []).
Proof.
  induction msgs as [|msg rest IH]; intros st Hlatch.
  - exists []. now split.
  - cbn [DataLoop before_Finished].
    destruct msg as [[meta|]|body|body|]; cbn [is_Finished data_payloads].
    + destruct (set_headers_silent (rs_w st) (Headers meta))
        as (_ & Hs & Hw & _).
      destruct (set_headers (rs_w st) (Headers meta)) as [trh w1].
      cbn [fst] in Hs, Hw.
      destruct (StatusCode meta >? 0)%Z; run_rest IH;
        cbn [writes_of short_writes_of];
        rewrite writes_of_app, short_writes_of_app, Hs, Hw;
        cbn [app writes_of short_writes_of]; now apply IHst.
    + run_rest IH. now apply IHst.
    + rewrite Hlatch. cbn [negb].
      destruct (Write (rs_w st) (Data body)) as [[n err] w1].
      destruct (n =? Z.of_nat (List.length (Data body)))%Z eqn:Hn; cbn [negb].
      * run_rest IH. destruct (IHst eq_refl) as (unwritten & Heq & Hnone).
        exists unwritten. cbn [writes_of short_writes_of app]. rewrite Hn, Heq.
        now split.
      * pose proof (DataLoop_quiet final rest
          {| rs_w := w1;
             rs_done := tryQueueError
                          match err with
                          | Some _ => err
                          | None => Some ErrShortWrite
                          end (rs_done st);
             rs_statusCode := rs_statusCode st;
             rs_isPartialWrite := true |} eq_refl) as Hq.
        destruct (DataLoop rest final _) as [tr st']. cbn [fst] in *.
        apply quiet_no_writes in Hq. destruct Hq as [_ Hw].
        exists (data_payloads (before_Finished rest)).
        unfold queue. cbn [writes_of short_writes_of app]. rewrite Hn, Hw.
        split; [reflexivity|discriminate].
    + match goal with |- context [drainLoop rest final ?d] =>
        pose proof (drainLoop_quiet final rest d) as Hq;
        destruct (drainLoop rest final d) as [tr done2] end.
      cbn [fst] in *. exists [].
      split; [|reflexivity].
      assert (Hall : quiet (EvRecv
                :: EvLogCallFinish (logCallFinish_warns body) (rs_statusCode st)
                :: map EvStat (recordFinishStats body)
                ++ (if negb (Success body)
                    then [queue QFinished (parseError body) (rs_done st)] else [])
                ++ tr)) by now apply quiet_finish.
      apply quiet_no_writes in Hall. now rewrite (proj2 Hall).
    + run_rest IH. now apply IHst.
Qed.

(** X22: the body reaches the sink in order and unchanged.  The buffers the
    receiver hands to the sink's [Write] are, in order, the payloads of the
    data frames that arrive before the Finished message: all of them when
    no write is short, and otherwise those up to the short write.  A data
    frame that arrives after the Finished message is never written. *)
Theorem receiveFromRunner_writes_in_order (w : W) (msgs : list RunnerMsg)
  (final : error_val) (done : chan) :
  exists unwritten,
    data_payloads (before_Finished msgs)
    = writes_of (fst (receiveFromRunner w msgs final done)) ++ unwritten /\
    (short_writes_of (fst (receiveFromRunner w msgs final done)) = [] ->
     unwritten = []).
Proof.
  unfold receiveFromRunner.
  destruct (DataLoop_writes final msgs
    {| rs_w := w; rs_done := done; rs_statusCode := 0;
       rs_isPartialWrite := false |} eq_refl) as (unwritten & Heq & Hnone).
  destruct (DataLoop msgs final _) as [tr st]. cbn [fst] in *.
  exists unwritten. now rewrite writes_of_app, short_writes_of_app, !app_nil_r.
Qed.

(** X23: headers and status codes reach the sink as the worker sent them.
    The headers set on the sink are those of the HTTP Result Start messages
    that arrive before the Finished message, in order, and the status codes
    handed to the status-code setter are exactly the positive ones among
    theirs, in order; a status code of zero or below is never written. *)
Theorem receiveFromRunner_headers_and_status (w : W) (msgs : list RunnerMsg)
  (final : error_val) (done : chan) :
  header_sets_of (fst (receiveFromRunner w msgs final done))
  = http_headers (before_Finished msgs) /\
  status_codes_of (fst (receiveFromRunner w msgs final done))
  = positive_statuses (before_Finished msgs) /\
  Forall (fun c => 0 < c)%Z
    (status_codes_of (fst (receiveFromRunner w msgs final done))).
Proof.
  unfold receiveFromRunner.
  destruct (DataLoop_sink_calls final msgs
    {| rs_w := w; rs_done := done; rs_statusCode := 0;
       rs_isPartialWrite := false |}) as (Hh & Hc & _).
  destruct (DataLoop msgs final _) as [tr st]. cbn [fst] in *.
  rewrite header_sets_of_app, status_codes_of_app, !app_nil_r, Hh, Hc.
  split; [reflexivity|]. split; [reflexivity|].
  clear. induction (before_Finished msgs) as [|m l IH]; [constructor|].
  destruct m as [[meta|]|d|f|]; cbn; auto.
  destruct (Z.gtb_spec (StatusCode meta) 0); auto.
Qed.

(** X24: completion is recorded once.  The latency statistics and the
    completion log are those of the first Finished message and of no other
    message; the log carries the last positive HTTP status received before
    it, or zero; a stream without a Finished message records and logs
    nothing. *)
Theorem receiveFromRunner_records_first_Finished (w : W) (msgs : list RunnerMsg)
  (final : error_val) (done : chan) :
  stats_of (fst (receiveFromRunner w msgs final done))
  = match first_Finished msgs with
    | Some f => recordFinishStats f
    | None => []
    end /\
  finish_logs_of (fst (receiveFromRunner w msgs final done))
  = match first_Finished msgs with
    | Some f =>
        [(logCallFinish_warns f,
          last (positive_statuses (before_Finished msgs)) 0%Z)]
    | None => []
    end.
Proof.
  unfold receiveFromRunner.
  destruct (DataLoop_sink_calls final msgs
    {| rs_w := w; rs_done := done; rs_statusCode := 0;
       rs_isPartialWrite := false |}) as (_ & _ & Hs & Hl & _).
  destruct (DataLoop msgs final _) as [tr st]. cbn [fst rs_statusCode] in *.
  now rewrite stats_of_app, finish_logs_of_app, !app_nil_r, Hs, Hl.
Qed.

(** X25: the channel is closed once, and last.  Every trace of the receiver
    ends with the one [close(done)] it contains, so no value is ever posted
    to the closed channel. *)
Theorem receiveFromRunner_closes_last (w : W) (msgs : list RunnerMsg)
  (final : error_val) (done : chan) :
  exists tr,
    fst (receiveFromRunner w msgs final done) = tr ++ [EvClose] /\
    count is_Close tr = 0 /\
    closed (snd (snd (receiveFromRunner w msgs final done))) = true.
Proof.
  unfold receiveFromRunner.
  destruct (DataLoop_sink_calls final msgs
    {| rs_w := w; rs_done := done; rs_statusCode := 0;
       rs_isPartialWrite := false |}) as (_ & _ & _ & _ & Hx).
  destruct (DataLoop msgs final _) as [tr st]. cbn [fst snd] in *.
  exists tr. now repeat split.
Qed.

End ReceiverSink.

Lemma receiveFromRunner_success_witness :
  posts_of (fst (receiveFromRunner (empty_sink 100)
    [http_start 200; data_frame [Byte.x61; Byte.x62];
     RunnerMsg_Finished (finished 1 5 EmptyString EmptyString EmptyString)]
    EOF make_chan)) = [] /\
  chan_recv (snd (snd (receiveFromRunner (empty_sink 100)
    [http_start 200; data_frame [Byte.x61; Byte.x62];
     RunnerMsg_Finished (finished 1 5 EmptyString EmptyString EmptyString)]
    EOF make_chan))) = Some nil_error.
Proof.
  apply (receiveFromRunner_success (empty_sink 100)
    [http_start 200; data_frame [Byte.x61; Byte.x62];
     RunnerMsg_Finished (finished 1 5 EmptyString EmptyString EmptyString)]
    (finished 1 5 EmptyString EmptyString EmptyString)); reflexivity.
Defined.

Lemma receiveFromRunner_failure_witness :
  chan_recv (snd (snd (receiveFromRunner (empty_sink 100)
    [RunnerMsg_Finished (failed 503 false); data_frame [Byte.x61]]
    EOF make_chan)))
  = Some (parseError (failed 503 false)) /\
  fst (TryExec (exchange_ending_with (parseError (failed 503 false))) sample_call)
  = (false, Some models.ErrCallTimeoutServerBusy).
Proof.
  apply (receiveFromRunner_failure (empty_sink 100)
    [RunnerMsg_Finished (failed 503 false); data_frame [Byte.x61]] EOF
    (failed 503 false) sample_call); reflexivity.
Defined.

Lemma receiveFromRunner_premature_end_witness :
  chan_recv (snd (snd (receiveFromRunner (empty_sink 100)
    [http_start 200; data_frame [Byte.x61; Byte.x62]] EOF make_chan)))
  = Some (Some EOF).
Proof.
  apply (receiveFromRunner_premature_end (empty_sink 100)
    [http_start 200; data_frame [Byte.x61; Byte.x62]] EOF); reflexivity.
Defined.

Lemma receiveFromRunner_missing_EOF_witness :
  chan_recv (snd (snd (receiveFromRunner (empty_sink 100)
    [RunnerMsg_Finished (finished 1 5 EmptyString EmptyString EmptyString);
     data_frame [Byte.x61]] EOF make_chan)))
  = Some (Some ErrorPureRunnerNoEOF) /\
  chan_recv (snd (snd (receiveFromRunner (empty_sink 100)
    [RunnerMsg_Finished (finished 1 5 EmptyString EmptyString EmptyString)]
    (StatusError 13 "stream reset") make_chan)))
  = Some (Some (StatusError 13 "stream reset")).
Proof.
  split.
  - apply (proj1 (receiveFromRunner_missing_EOF (empty_sink 100)
      [RunnerMsg_Finished (finished 1 5 EmptyString EmptyString EmptyString);
       data_frame [Byte.x61]] EOF
      (finished 1 5 EmptyString EmptyString EmptyString)
      eq_refl eq_refl eq_refl)).
    discriminate.
  - apply (proj2 (receiveFromRunner_missing_EOF (empty_sink 100)
      [RunnerMsg_Finished (finished 1 5 EmptyString EmptyString EmptyString)]
      (StatusError 13 "stream reset")
      (finished 1 5 EmptyString EmptyString EmptyString)
      eq_refl eq_refl eq_refl)).
    + reflexivity.
    + discriminate.
Defined.

Lemma receiveFromRunner_short_write_signal_witness :
  chan_recv (snd (snd (receiveFromRunner (empty_sink 1) two_data_frames EOF
                         make_chan)))
  = Some (Some ErrShortWrite).
Proof.
  apply (receiveFromRunner_short_write_signal (empty_sink 1) two_data_frames EOF
           (Some ErrShortWrite) []).
  reflexivity.
Defined.

(** ** Latency recording: what is accumulated *)

Section StatsAccounting.

Context {Time : Type} `{Clock Time}.

(** X26: the call's execution-time accumulator is advanced by exactly what
    is recorded as execution latency: on every path [recordFinishStats]
    records at most one scheduler latency and at most one execution
    latency, and it adds to the accumulator the execution latency it
    recorded and nothing else.  The timestamps are looked at only when both
    durations are zero. *)
Theorem recordFinishStats_accounting (msg : CallFinished) :
  accumulated (recordFinishStats msg) = exec_latencies (recordFinishStats msg) /\
  List.length (exec_latencies (recordFinishStats msg)) <= 1 /\
  List.length (sched_latencies (recordFinishStats msg)) <= 1 /\
  dates_translated (recordFinishStats msg)
  = (if (SchedulerDuration msg =? 0)%Z && (ExecutionDuration msg =? 0)%Z
     then [CreatedAt msg; StartedAt msg; CompletedAt msg] else []).
Proof.
  unfold recordFinishStats.
  destruct (SchedulerDuration msg =? 0)%Z, (ExecutionDuration msg =? 0)%Z;
    cbn [negb orb andb app accumulated exec_latencies sched_latencies
         dates_translated List.length];
    try (repeat split; lia).
  destruct (negb (IsZero (translateDate (CreatedAt msg)))
            && negb (IsZero (translateDate (StartedAt msg)))
            && negb (IsZero (translateDate (CompletedAt msg)))
            && negb (Before (translateDate (StartedAt msg))
                            (translateDate (CreatedAt msg)))
            && negb (Before (translateDate (CompletedAt msg))
                            (translateDate (StartedAt msg))));
    cbn; repeat split; lia.
Qed.

End StatsAccounting.

(** ** The slot hash on the wire *)




